(** * LogDevice: STORED protocol message, nodes-configuration hash,
      copysets and the RocksDB settings of the local log store.

    A shallow embedding of
    - [logdevice/server/locallogstore/RocksDBSettings.cpp],
    - [logdevice/common/CopySet.h],
    - [logdevice/common/configuration/NodesConfig.cpp],
    - [logdevice/common/protocol/STORED_Message.cpp],
    and the properties of these units that the specification states. *)

From Stdlib Require Import ZArith NArith List String Ascii Lia.
From Stdlib Require Import Permutation Sorted.
From Stdlib.Strings Require Byte.
From Stdlib.Init Require Import Byte.
From stdpp Require Import base list strings sorting gmap.

Local Open Scope Z_scope.

(* ===================================================================== *)
(** * Bytes and native integer images *)
(* ===================================================================== *)

(** [memcpy] of a [w]-byte integer on the little-endian targets LogDevice is
    built for: the value is taken modulo [2^(8w)], least significant byte
    first. *)
Definition byte_of_Z (z : Z) : byte :=
  byte_of_ascii (ascii_of_N (Z.to_N (z mod 256))).

Definition Z_of_byte (b : byte) : Z := Z.of_N (Byte.to_N b).

Fixpoint le_bytes (w : nat) (z : Z) : list byte :=
  match w with
  | O => []
  | S w' => byte_of_Z z :: le_bytes w' (z / 256)
  end.

Fixpoint le_value (bs : list byte) : Z :=
  match bs with
  | [] => 0
  | b :: bs' => Z_of_byte b + 256 * le_value bs'
  end.

(* ===================================================================== *)
(** * RocksDBSettings.cpp *)
(* ===================================================================== *)

(** The part of [rocksdb::Options] that [toRocksDBOptions] assigns.  Every
    other member keeps the value given by the default constructor of
    [rocksdb::Options], whatever the settings are. *)
Module rocksdb.

Inductive CompactionStyle : Type :=
| kCompactionStyleLevel
| kCompactionStyleUniversal.

Inductive CompressionType : Type :=
| kNoCompression
| kSnappyCompression
| kZlibCompression
| kBZip2Compression
| kLZ4Compression
| kLZ4HCCompression
| kXpressCompression
| kZSTD.

Inductive AccessHint : Type := NORMAL | SEQUENTIAL.

Record CompactionOptionsUniversal : Type := {
  size_ratio : Z;
  min_merge_width : Z;
  max_merge_width : Z;
  max_size_amplification_percent : Z
}.

Record Options : Type := {
  compaction_style : CompactionStyle;
  compression : CompressionType;
  access_hint_on_compaction_start : AccessHint;
  advise_random_on_open : bool;
  skip_stats_update_on_db_open : bool;
  allow_fallocate : bool;
  max_open_files : Z;
  bytes_per_sync : Z;
  wal_bytes_per_sync : Z;
  compaction_readahead_size : Z;
  level0_file_num_compaction_trigger : Z;
  level0_slowdown_writes_trigger : Z;
  level0_stop_writes_trigger : Z;
  max_background_compactions : Z;
  max_background_flushes : Z;
  max_bytes_for_level_base : Z;
  max_bytes_for_level_multiplier : Z;
  max_write_buffer_number : Z;
  num_levels : Z;
  target_file_size_base : Z;
  write_buffer_size : Z;
  max_total_wal_size : Z;
  db_write_buffer_size : Z;
  arena_block_size : Z;
  compaction_options_universal : CompactionOptionsUniversal
}.

End rocksdb.

Module RocksDBSettings.

(** A setting's parser either yields the parsed value or throws
    [boost::program_options::error] with a message. *)
Inductive parsed (A : Type) : Type :=
| Parsed (a : A)
| Throws (what : string).
Arguments Parsed {A} a.
Arguments Throws {A} what.

(** The double-quote character, written with a backslash in the C source. *)
Definition dquote : string := String "034"%char EmptyString.

(** ** Option names *)

Definition rocksdb_option_prefix : string := "rocksdb".
Definition universal_compaction_opt_prefix : string := "uc".

(** [snprintf(buf, buflen, ...)] keeps at most [buflen - 1] characters. *)
Definition snprintf (buflen : nat) (formatted : string) : string :=
  String.substring 0 (buflen - 1) formatted.

Fixpoint underscores_to_dashes (s : string) : string :=
  match s with
  | EmptyString => EmptyString
  | String c s' =>
      String (if Ascii.eqb c "_" then "-"%char else c) (underscores_to_dashes s')
  end.

Definition rocksdbOptionName (field_name : string) (buflen : nat) : string :=
  let buf :=
    if String.prefix "uc_" field_name
    then snprintf buflen
           (rocksdb_option_prefix +:+ "-" +:+ universal_compaction_opt_prefix
              +:+ "-" +:+ String.substring 3 (String.length field_name - 3) field_name)
    else snprintf buflen (rocksdb_option_prefix +:+ "-" +:+ field_name) in
  underscores_to_dashes buf.

Definition OPTNAME (field : string) : string :=
  rocksdbOptionName field
    (String.length rocksdb_option_prefix + 1
     + String.length universal_compaction_opt_prefix + 1
     + String.length field + 1)%nat.

(** ** The settings that [defineSettings] registers with a parser of their own *)

(** One call [init(name, &field, default, parser, description, flags, category)]. *)
Record Setting (A : Type) : Type := {
  setting_name : string;
  default_value : string;
  setting_parser : string -> parsed A
}.
Arguments setting_name {A} _.
Arguments default_value {A} _.
Arguments setting_parser {A} _.

(** The value a setting has when the configuration does not mention it. *)
Definition create_default {A} (s : Setting A) : parsed A :=
  setting_parser s (default_value s).

Definition compaction_style_parser (val : string) : parsed rocksdb.CompactionStyle :=
  if String.eqb val "universal" then Parsed rocksdb.kCompactionStyleUniversal
  else if String.eqb val "level" then Parsed rocksdb.kCompactionStyleLevel
  else Throws ("invalid value '" +:+ val +:+ "'for option --"
               +:+ OPTNAME "compaction_style"
               +:+ ". Expected 'universal' or 'level'").

Definition compression_type_parser (val : string) : parsed rocksdb.CompressionType :=
  if String.eqb val "snappy" then Parsed rocksdb.kSnappyCompression
  else if String.eqb val "none" then Parsed rocksdb.kNoCompression
  else if String.eqb val "zlib" then Parsed rocksdb.kZlibCompression
  else if String.eqb val "bzip2" then Parsed rocksdb.kBZip2Compression
  else if String.eqb val "lz4" then Parsed rocksdb.kLZ4Compression
  else if String.eqb val "lz4hc" then Parsed rocksdb.kLZ4HCCompression
  else if String.eqb val "xpress" then Parsed rocksdb.kXpressCompression
  else if String.eqb val "zstd" then Parsed rocksdb.kZSTD
  else Throws ("invalid value '" +:+ val +:+ "' for option --"
               +:+ OPTNAME "compression_type").

Definition compaction_style_setting : Setting rocksdb.CompactionStyle :=
  {| setting_name := OPTNAME "compaction_style";
     default_value := "universal";
     setting_parser := compaction_style_parser |}.

Definition compression_type_setting : Setting rocksdb.CompressionType :=
  {| setting_name := OPTNAME "compression_type";
     default_value := "none";
     setting_parser := compression_type_parser |}.

(** [rate_limit_t] is a pair of a [size_t] count of bytes and a duration in
    milliseconds; the count is unsigned. *)
Definition rate_limit_t : Type := (N * Z)%type.

(** [rate_limit_t r;] value-initialises both members. *)
Definition rate_limit_t_init : rate_limit_t := (0%N, 0).

Section compaction_ratelimit.

(** [parse_rate_limit] of logdevice/common/util is not part of this unit. It
    receives the string and a pointer to the result; here it takes the string
    and the pointee as it is before the call, and gives the [int] return code
    with the pointee as it is after the call. *)
Variable parse_rate_limit : string -> rate_limit_t -> Z * rate_limit_t.

Definition compaction_ratelimit_parser (val : string) : parsed rate_limit_t :=
  let r := rate_limit_t_init in
  let '(rv, r) := parse_rate_limit val r in
  if negb (rv =? 0) || (fst r =? 0)%N
  then Throws ("invalid value '" +:+ val +:+
               "' for option --compaction-ratelimit; expected rate limit in "
               +:+ "format <count><suffix>/<duration><unit>, e.g. 5M/1s or "
               +:+ dquote +:+ "unlimited" +:+ dquote +:+ ".")
  else Parsed r.

Definition compaction_ratelimit_setting : Setting rate_limit_t :=
  {| setting_name := OPTNAME "compaction_ratelimit";
     default_value := "30M/1s";
     setting_parser := compaction_ratelimit_parser |}.

End compaction_ratelimit.

(** A reader of plain decimal numbers with an optional minus sign, for the
    default strings of the numeric settings. *)
Definition digit_of_ascii (c : ascii) : option Z :=
  let n := Z.of_N (N_of_ascii c) in
  if (48 <=? n) && (n <=? 57) then Some (n - 48) else None.

Fixpoint parse_digits (acc : Z) (s : string) : option Z :=
  match s with
  | EmptyString => Some acc
  | String c s' =>
      match digit_of_ascii c with
      | Some d => parse_digits (10 * acc + d) s'
      | None => None
      end
  end.

Definition parse_decimal (s : string) : option Z :=
  match s with
  | EmptyString => None
  | String "-" (String c s') => option_map Z.opp (parse_digits 0 (String c s'))
  | _ => parse_digits 0 s
  end.

(** ** The settings object and its translation to [rocksdb::Options] *)

(** The members of [RocksDBSettings] that [toRocksDBOptions] reads, and the
    block-based-table knobs [block_size_], [cache_size_] and
    [bloom_bits_per_key_] that [defineSettings] registers beside them. *)
Record RocksDBSettings : Type := {
  compaction_style : rocksdb.CompactionStyle;
  compression : rocksdb.CompressionType;
  compaction_access_sequential : bool;
  advise_random_on_open : bool;
  update_stats_on_db_open : bool;
  allow_fallocate : bool;
  max_open_files : Z;
  bytes_per_sync : Z;
  wal_bytes_per_sync : Z;
  compaction_readahead_size : Z;
  level0_file_num_compaction_trigger : Z;
  level0_slowdown_writes_trigger : Z;
  level0_stop_writes_trigger : Z;
  max_background_compactions : Z;
  max_background_flushes : Z;
  max_bytes_for_level_base : Z;
  max_bytes_for_level_multiplier : Z;
  max_write_buffer_number : Z;
  num_levels : Z;
  target_file_size_base : Z;
  write_buffer_size : Z;
  max_total_wal_size : Z;
  db_write_buffer_size : Z;
  arena_block_size : Z;
  uc_min_merge_width : Z;
  uc_max_merge_width : Z;
  uc_max_size_amplification_percent : Z;
  uc_size_ratio : Z;
  block_size_ : Z;
  cache_size_ : Z;
  bloom_bits_per_key_ : Z;
  num_metadata_locks : Z
}.

Definition toRocksDBOptions (self : RocksDBSettings) : rocksdb.Options :=
  {| rocksdb.compaction_style := compaction_style self;
     rocksdb.compression := compression self;
     rocksdb.access_hint_on_compaction_start :=
       if compaction_access_sequential self
       then rocksdb.SEQUENTIAL
       else rocksdb.NORMAL;
     rocksdb.advise_random_on_open := advise_random_on_open self;
     rocksdb.skip_stats_update_on_db_open := negb (update_stats_on_db_open self);
     rocksdb.allow_fallocate := allow_fallocate self;
     rocksdb.max_open_files := max_open_files self;
     rocksdb.bytes_per_sync := bytes_per_sync self;
     rocksdb.wal_bytes_per_sync := wal_bytes_per_sync self;
     rocksdb.compaction_readahead_size := compaction_readahead_size self;
     rocksdb.level0_file_num_compaction_trigger :=
       level0_file_num_compaction_trigger self;
     rocksdb.level0_slowdown_writes_trigger := level0_slowdown_writes_trigger self;
     rocksdb.level0_stop_writes_trigger := level0_stop_writes_trigger self;
     rocksdb.max_background_compactions := max_background_compactions self;
     rocksdb.max_background_flushes := max_background_flushes self;
     rocksdb.max_bytes_for_level_base := max_bytes_for_level_base self;
     rocksdb.max_bytes_for_level_multiplier := max_bytes_for_level_multiplier self;
     rocksdb.max_write_buffer_number := max_write_buffer_number self;
     rocksdb.num_levels := num_levels self;
     rocksdb.target_file_size_base := target_file_size_base self;
     rocksdb.write_buffer_size := write_buffer_size self;
     rocksdb.max_total_wal_size := max_total_wal_size self;
     rocksdb.db_write_buffer_size := db_write_buffer_size self;
     rocksdb.arena_block_size := arena_block_size self;
     rocksdb.compaction_options_universal :=
       {| rocksdb.min_merge_width := uc_min_merge_width self;
          rocksdb.max_merge_width := uc_max_merge_width self;
          rocksdb.max_size_amplification_percent :=
            uc_max_size_amplification_percent self;
          rocksdb.size_ratio := uc_size_ratio self |} |}.

(** The settings object with other block-based-table knobs. *)
Definition with_table_knobs (block_size cache_size bloom_bits : Z)
    (s : RocksDBSettings) : RocksDBSettings :=
  {| compaction_style := compaction_style s;
     compression := compression s;
     compaction_access_sequential := compaction_access_sequential s;
     advise_random_on_open := advise_random_on_open s;
     update_stats_on_db_open := update_stats_on_db_open s;
     allow_fallocate := allow_fallocate s;
     max_open_files := max_open_files s;
     bytes_per_sync := bytes_per_sync s;
     wal_bytes_per_sync := wal_bytes_per_sync s;
     compaction_readahead_size := compaction_readahead_size s;
     level0_file_num_compaction_trigger := level0_file_num_compaction_trigger s;
     level0_slowdown_writes_trigger := level0_slowdown_writes_trigger s;
     level0_stop_writes_trigger := level0_stop_writes_trigger s;
     max_background_compactions := max_background_compactions s;
     max_background_flushes := max_background_flushes s;
     max_bytes_for_level_base := max_bytes_for_level_base s;
     max_bytes_for_level_multiplier := max_bytes_for_level_multiplier s;
     max_write_buffer_number := max_write_buffer_number s;
     num_levels := num_levels s;
     target_file_size_base := target_file_size_base s;
     write_buffer_size := write_buffer_size s;
     max_total_wal_size := max_total_wal_size s;
     db_write_buffer_size := db_write_buffer_size s;
     arena_block_size := arena_block_size s;
     uc_min_merge_width := uc_min_merge_width s;
     uc_max_merge_width := uc_max_merge_width s;
     uc_max_size_amplification_percent := uc_max_size_amplification_percent s;
     uc_size_ratio := uc_size_ratio s;
     block_size_ := block_size;
     cache_size_ := cache_size;
     bloom_bits_per_key_ := bloom_bits;
     num_metadata_locks := num_metadata_locks s |}.

(** A settings object with the values of the defaults that [defineSettings]
    gives as plain numbers, and plain numbers for the scaled ones. *)
Definition sample_settings : RocksDBSettings :=
  {| compaction_style := rocksdb.kCompactionStyleUniversal;
     compression := rocksdb.kNoCompression;
     compaction_access_sequential := true;
     advise_random_on_open := false;
     update_stats_on_db_open := false;
     allow_fallocate := true;
     max_open_files := 10000;
     bytes_per_sync := 1048576;
     wal_bytes_per_sync := 1048576;
     compaction_readahead_size := 4096;
     level0_file_num_compaction_trigger := 10;
     level0_slowdown_writes_trigger := 25;
     level0_stop_writes_trigger := 30;
     max_background_compactions := 2;
     max_background_flushes := 15;
     max_bytes_for_level_base := 10000000000;
     max_bytes_for_level_multiplier := 8;
     max_write_buffer_number := 2;
     num_levels := 1;
     target_file_size_base := 67108864;
     write_buffer_size := 100000000000;
     max_total_wal_size := 2500000000;
     db_write_buffer_size := 0;
     arena_block_size := 4194304;
     uc_min_merge_width := 2;
     uc_max_merge_width := 4294967295;
     uc_max_size_amplification_percent := 200;
     uc_size_ratio := 1000000;
     block_size_ := 500000;
     cache_size_ := 10000000000;
     bloom_bits_per_key_ := 0;
     num_metadata_locks := 256 |}.

(** The compression names of the specification with the constant of each. *)
Definition compression_names : list (string * rocksdb.CompressionType) :=
  [("none", rocksdb.kNoCompression);
   ("snappy", rocksdb.kSnappyCompression);
   ("zlib", rocksdb.kZlibCompression);
   ("bzip2", rocksdb.kBZip2Compression);
   ("lz4", rocksdb.kLZ4Compression);
   ("lz4hc", rocksdb.kLZ4HCCompression);
   ("xpress", rocksdb.kXpressCompression);
   ("zstd", rocksdb.kZSTD)].

(** A sample [parse_rate_limit] that knows two strings. *)
Definition sample_parse_rate_limit (s : string) (r : rate_limit_t)
  : Z * rate_limit_t :=
  if String.eqb s "5M/1s" then (0, (5000000%N, 1000))
  else if String.eqb s "0/1s" then (0, (0%N, 1000))
  else (-1, r).

(** ** Further parsers and validators of [defineSettings] *)

Inductive FlushBlockPolicyType : Type := DEFAULT | EACH_LOG | EACH_COPYSET.

Definition flush_block_policy_parser (val : string) : parsed FlushBlockPolicyType :=
  if String.eqb val "default" then Parsed DEFAULT
  else if String.eqb val "each_log" then Parsed EACH_LOG
  else if String.eqb val "each_copyset" then Parsed EACH_COPYSET
  else Throws ("invalid value '" +:+ val +:+ "'for option --"
               +:+ OPTNAME "flush_block_policy"
               +:+ ". Expected 'default', 'each_log' or 'each_copyset'").

Definition flush_block_policy_setting : Setting FlushBlockPolicyType :=
  {| setting_name := OPTNAME "flush_block_policy";
     default_value := "each_log";
     setting_parser := flush_block_policy_parser |}.

(** [std::to_string] on a signed integer. *)
Definition digit_to_ascii (d : nat) : ascii := ascii_of_nat (48 + d).

Fixpoint to_string_pos (fuel : nat) (n : N) (acc : string) : string :=
  match fuel with
  | O => acc
  | S fuel' =>
      let acc' := String (digit_to_ascii (N.to_nat (n mod 10))) acc in
      if (n / 10 =? 0)%N then acc' else to_string_pos fuel' (n / 10) acc'
  end.

Definition to_string (z : Z) : string :=
  let digits := to_string_pos (S (N.to_nat (N.log2 (Z.abs_N z)))) (Z.abs_N z)
                  EmptyString in
  if z <? 0 then String "-" digits else digits.

(** [bloom_bits_per_key]: the default and the validator depend on whether the
    build defines [LOGDEVICED_ROCKSDB_BLOOM_UNBROKEN]. *)
Definition bloom_bits_per_key_default (BLOOM_UNBROKEN : bool) : string :=
  if BLOOM_UNBROKEN then "10" else "0".

Definition bloom_bits_per_key_validator (BLOOM_UNBROKEN : bool) (val : Z)
  : parsed unit :=
  if BLOOM_UNBROKEN then
    if val <? 0
    then Throws ("invalid value '" +:+ to_string val +:+ "'for option --"
                 +:+ OPTNAME "bloom_bits_per_key"
                 +:+ ". Expected nonnegative value.")
    else Parsed tt
  else
    if negb (val =? 0)
    then Throws ("bloom filters are broken in this version of rocksdb. Please "
                 +:+ "use --" +:+ OPTNAME "bloom_bits_per_key" +:+ "=0.")
    else Parsed tt.

Definition metadata_bloom_bits_per_key_default : string := "0".

Definition metadata_bloom_bits_per_key_validator (BLOOM_UNBROKEN : bool) (val : Z)
  : parsed unit :=
  if BLOOM_UNBROKEN then
    if val <? 0
    then Throws ("invalid value '" +:+ to_string val +:+ "'for option --"
                 +:+ OPTNAME "metadata_bloom_bits_per_key"
                 +:+ ". Expected nonnegative value.")
    else Parsed tt
  else
    if negb (val =? 0)
    then Throws ("bloom filters are broken in this version of rocksdb. Please "
                 +:+ "use --" +:+ OPTNAME "metadata_bloom_bits_per_key" +:+ "=0.")
    else Parsed tt.

(** The validators of the settings that are durations; [val] is
    [val.count()], in the unit of the setting. *)
Definition partition_duration_validator (val : Z) : parsed unit :=
  if val <? 0
  then Throws ("value of --rocksdb-partition-duration"
               +:+ " must be non-negative; "
               +:+ to_string val +:+ "s given.")
  else Parsed tt.

Definition unconfigured_log_trimming_grace_period_validator (val : Z) : parsed unit :=
  if val <? 0
  then Throws ("value of --rocksdb-unconfigured-log-trimming-grace-period"
               +:+ " must be non-negative; "
               +:+ to_string val +:+ "s given.")
  else Parsed tt.

Definition partition_timestamp_granularity_validator (val : Z) : parsed unit :=
  if val <? 0
  then Throws ("value of --rocksdb-partition-timestamp-granularity"
               +:+ " must be non-negative; "
               +:+ to_string val +:+ "ms given.")
  else Parsed tt.

Definition new_partition_timestamp_margin_validator (val : Z) : parsed unit :=
  if val <? 0
  then Throws ("value of --rocksdb-new-partition-timestamp-margin"
               +:+ " must be non-negative; "
               +:+ to_string val +:+ "ms given.")
  else Parsed tt.

Definition partition_hi_pri_check_period_validator (val : Z) : parsed unit :=
  if val <=? 0
  then Throws ("value of --rocksdb-partition-hi-pri-check-period"
               +:+ " must be positive; "
               +:+ to_string val +:+ "ms given.")
  else Parsed tt.

Definition partition_lo_pri_check_period_validator (val : Z) : parsed unit :=
  if val <=? 0
  then Throws ("value of --rocksdb-partition-lo-pri-check-period"
               +:+ " must be positive; "
               +:+ to_string val +:+ "ms given.")
  else Parsed tt.

Definition min_manual_flush_interval_validator (val : Z) : parsed unit :=
  if val <? 0
  then Throws ("value of --min-manual-flush-interval"
               +:+ " must be non-negative; "
               +:+ to_string val +:+ "ms given.")
  else Parsed tt.

Definition partition_data_age_flush_trigger_validator (val : Z) : parsed unit :=
  if val <? 0
  then Throws ("value of --rocksdb-parittion-data-age-flush-trigger"
               +:+ " must be non-negative; "
               +:+ to_string val +:+ "ms given.")
  else Parsed tt.

Definition partition_idle_flush_trigger_validator (val : Z) : parsed unit :=
  if val <? 0
  then Throws ("value of --rocksdb-partition-idle-flush-trigger"
               +:+ " must be non-negative; "
               +:+ to_string val +:+ "ms given.")
  else Parsed tt.

Definition partition_redirty_grace_period_validator (val : Z) : parsed unit :=
  if val <? 0
  then Throws ("value of --rocksdb-partition-redirty-grace-period"
               +:+ " must be non-negative; "
               +:+ to_string val +:+ "ms given.")
  else Parsed tt.

Definition metadata_compaction_period_validator (val : Z) : parsed unit :=
  if val <? 0
  then Throws ("value of --rocksdb-metadata-compaction-period"
               +:+ " must be non-negative; "
               +:+ to_string val +:+ "ms given.")
  else Parsed tt.

Definition directory_consistency_check_period_validator (val : Z) : parsed unit :=
  if val <? 0
  then Throws ("value of --rocksdb-directory-consistency-check-period"
               +:+ " must be non-negative; "
               +:+ to_string val +:+ "ms given.")
  else Parsed tt.

Definition stall_cache_ttl_validator (val : Z) : parsed unit :=
  if val <=? 0
  then Throws ("value of --rocksdb-stall-cache-ttl"
               +:+ " must be positive; "
               +:+ to_string val +:+ "ms given.")
  else Parsed tt.

(** The duration settings by the test of their validator, each with the name
    of its member, from which [OPTNAME] makes the name of the option. *)
Definition nonnegative_durations : list (string * (Z -> parsed unit)) :=
  [("partition_duration", partition_duration_validator);
   ("unconfigured_log_trimming_grace_period", unconfigured_log_trimming_grace_period_validator);
   ("partition_timestamp_granularity", partition_timestamp_granularity_validator);
   ("new_partition_timestamp_margin", new_partition_timestamp_margin_validator);
   ("min_manual_flush_interval", min_manual_flush_interval_validator);
   ("partition_data_age_flush_trigger", partition_data_age_flush_trigger_validator);
   ("partition_idle_flush_trigger", partition_idle_flush_trigger_validator);
   ("partition_redirty_grace_period", partition_redirty_grace_period_validator);
   ("metadata_compaction_period", metadata_compaction_period_validator);
   ("directory_consistency_check_period", directory_consistency_check_period_validator)].

Definition positive_durations : list (string * (Z -> parsed unit)) :=
  [("partition_hi_pri_check_period", partition_hi_pri_check_period_validator);
   ("partition_lo_pri_check_period", partition_lo_pri_check_period_validator);
   ("stall_cache_ttl", stall_cache_ttl_validator)].

(** The names that the parsers of [compaction_style] and of
    [flush_block_policy] know. *)
Definition compaction_style_names : list (string * rocksdb.CompactionStyle) :=
  [("universal", rocksdb.kCompactionStyleUniversal);
   ("level", rocksdb.kCompactionStyleLevel)].

Definition flush_block_policy_names : list (string * FlushBlockPolicyType) :=
  [("default", DEFAULT); ("each_log", EACH_LOG); ("each_copyset", EACH_COPYSET)].

(** ** Properties *)

Lemma OPTNAME_compression_type :
  OPTNAME "compression_type" = "rocksdb-compression-type".
Proof. reflexivity. Qed.

Lemma OPTNAME_uc_size_ratio : OPTNAME "uc_size_ratio" = "rocksdb-uc-size-ratio".
Proof. reflexivity. Qed.

Example compression_type_default :
  create_default compression_type_setting = Parsed rocksdb.kNoCompression.
Proof. reflexivity. Qed.

Example compaction_style_default :
  create_default compaction_style_setting
  = Parsed rocksdb.kCompactionStyleUniversal.
Proof. reflexivity. Qed.

Example compression_type_rejects_gzip :
  compression_type_parser "gzip"
  = Throws "invalid value 'gzip' for option --rocksdb-compression-type".
Proof. reflexivity. Qed.

Example parse_decimal_samples :
  parse_decimal "256" = Some 256 /\ parse_decimal "-4" = Some (-4) /\
  parse_decimal "10G" = None /\ parse_decimal EmptyString = None.
Proof. repeat split. Qed.

Lemma underscores_to_dashes_length s :
  String.length (underscores_to_dashes s) = String.length s.
Proof. induction s as [|c s IH]; simpl; [reflexivity | now rewrite IH]. Qed.

(** C5: the parser of [compression_type] maps each of the eight names to its
    constant, and throws for every string that is none of the eight. *)
Theorem compression_type_parser_exact :
  (forall val c,
      In (val, c) compression_names -> compression_type_parser val = Parsed c) /\
  (forall val,
      ~ In val (map fst compression_names) ->
      compression_type_parser val =
      Throws ("invalid value '" +:+ val
              +:+ "' for option --rocksdb-compression-type")) /\
  (forall val c,
      compression_type_parser val = Parsed c -> In (val, c) compression_names).
Proof.
  split; [|split].
  - intros val c H. simpl in H.
    repeat (destruct H as [H|H]; [injection H as <- <-; reflexivity|]).
    destruct H.
  - intros val H. unfold compression_type_parser.
    repeat match goal with
           | |- context [String.eqb val ?s] =>
               destruct (String.eqb_spec val s) as [->|_];
               [exfalso; apply H; simpl; tauto|]
           end.
    reflexivity.
  - intros val c. unfold compression_type_parser.
    repeat match goal with
           | |- context [String.eqb val ?s] =>
               destruct (String.eqb_spec val s) as [->|_];
               [intros [= <-]; simpl; tauto|]
           end.
    discriminate.
Qed.

(** C7: the parser of [compaction_ratelimit] accepts a string exactly when
    [parse_rate_limit] returns 0 for it with a count other than zero; the
    accepted rate is the parsed one and its count is strictly positive; every
    other string makes it throw. *)
Theorem compaction_ratelimit_parser_positive
    (parse_rate_limit : string -> rate_limit_t -> Z * rate_limit_t)
    (val : string) :
  (forall r,
      compaction_ratelimit_parser parse_rate_limit val = Parsed r ->
      parse_rate_limit val rate_limit_t_init = (0, r) /\ (0 < fst r)%N) /\
  (forall r,
      parse_rate_limit val rate_limit_t_init = (0, r) -> (0 < fst r)%N ->
      compaction_ratelimit_parser parse_rate_limit val = Parsed r) /\
  (fst (parse_rate_limit val rate_limit_t_init) <> 0 \/
   fst (snd (parse_rate_limit val rate_limit_t_init)) = 0%N ->
   exists what,
     compaction_ratelimit_parser parse_rate_limit val = Throws what).
Proof.
  unfold compaction_ratelimit_parser.
  destruct (parse_rate_limit val rate_limit_t_init) as [rv r] eqn:E.
  destruct (Z.eqb_spec rv 0) as [->|Hrv]; simpl;
    [destruct (N.eqb_spec (fst r) 0) as [H0|H0]|].
  - split; [|split].
    + discriminate.
    + intros r' [= <-] Hpos. lia.
    + eauto.
  - split; [|split].
    + intros r' [= <-]. split; [reflexivity | lia].
    + intros r' [= <-] _. reflexivity.
    + intros [H|H]; [now destruct H | contradiction].
  - split; [|split].
    + discriminate.
    + intros r' [= -> _]. now destruct Hrv.
    + eauto.
Qed.

(** C2, as the code has it: [toRocksDBOptions] copies the compaction style,
    the compression and the two parallelism knobs into the options, and the
    options it returns do not depend on the block size, the cache size or the
    bloom bits of the settings. *)
Theorem toRocksDBOptions_translated_knobs (s : RocksDBSettings) :
  rocksdb.compaction_style (toRocksDBOptions s) = compaction_style s /\
  rocksdb.compression (toRocksDBOptions s) = compression s /\
  rocksdb.max_background_compactions (toRocksDBOptions s)
  = max_background_compactions s /\
  rocksdb.max_background_flushes (toRocksDBOptions s)
  = max_background_flushes s /\
  (forall block_size cache_size bloom_bits,
      toRocksDBOptions (with_table_knobs block_size cache_size bloom_bits s)
      = toRocksDBOptions s).
Proof. repeat split. Qed.

(** C2, as the specification words it, does not hold: two settings objects
    that differ in block size, cache size and bloom bits give the same
    options, so that no member of the options equals any of these knobs. *)
Lemma toRocksDBOptions_drops_table_knobs :
  toRocksDBOptions (with_table_knobs 4096 8388608 10 sample_settings)
  = toRocksDBOptions sample_settings /\
  ~ (exists block_size : rocksdb.Options -> Z,
        forall s, block_size (toRocksDBOptions s) = block_size_ s) /\
  ~ (exists cache_size : rocksdb.Options -> Z,
        forall s, cache_size (toRocksDBOptions s) = cache_size_ s) /\
  ~ (exists bloom_bits : rocksdb.Options -> Z,
        forall s, bloom_bits (toRocksDBOptions s) = bloom_bits_per_key_ s).
Proof.
  split; [reflexivity|].
  assert (Hsame : toRocksDBOptions
                    (with_table_knobs 4096 8388608 10 sample_settings)
                  = toRocksDBOptions sample_settings) by reflexivity.
  repeat split; intros [f Hf];
    pose proof (Hf sample_settings) as H1;
    pose proof (Hf (with_table_knobs 4096 8388608 10 sample_settings)) as H2;
    rewrite Hsame, H1 in H2; discriminate H2.
Qed.

(** ** Option names, further parsers *)

Lemma substring_0_all s n :
  (String.length s <= n)%nat -> String.substring 0 n s = s.
Proof.
  revert n. induction s as [|c s IH]; intros [|n] H; simpl in *;
    try reflexivity; try lia.
  f_equal. apply IH. lia.
Qed.

Lemma substring_0_length s n :
  (String.length (String.substring 0 n s) <= n)%nat.
Proof.
  revert n. induction s as [|c s IH]; intros [|n]; simpl; try lia.
  specialize (IH n). lia.
Qed.

Lemma underscores_to_dashes_app s1 s2 :
  underscores_to_dashes (s1 +:+ s2)
  = underscores_to_dashes s1 +:+ underscores_to_dashes s2.
Proof. induction s1 as [|c s1 IH]; simpl; [reflexivity | now rewrite IH]. Qed.

Lemma string_length_app s1 s2 :
  String.length (s1 +:+ s2) = (String.length s1 + String.length s2)%nat.
Proof. induction s1 as [|c s1 IH]; simpl; [reflexivity | now rewrite IH]. Qed.

Lemma substring_split s n :
  s = String.substring 0 n s +:+ String.substring n (String.length s - n) s.
Proof.
  revert n. induction s as [|c s IH]; intros [|n]; try reflexivity.
  - simpl. now rewrite substring_0_all by lia.
  - simpl. exact (f_equal (String c) (IH n)).
Qed.

Lemma prefix_uc field :
  String.prefix "uc_" field = true ->
  field = "uc_" +:+ String.substring 3 (String.length field - 3) field.
Proof.
  intros H. apply String.prefix_correct in H. cbn [String.length] in H.
  rewrite <- H at 1. apply substring_split.
Qed.

(** X1: the buffer that [OPTNAME] reserves is never too small, and the branch
    for the universal compaction options changes nothing: for every field
    name the option name is [rocksdb-] followed by the field name, with the
    underscores turned into dashes. *)
Theorem OPTNAME_is_prefixed_field (field : string) :
  OPTNAME field = underscores_to_dashes ("rocksdb-" +:+ field) /\
  String.length (OPTNAME field) = (8 + String.length field)%nat.
Proof.
  assert (H : OPTNAME field = underscores_to_dashes ("rocksdb-" +:+ field)).
  { unfold OPTNAME, rocksdbOptionName, snprintf.
    destruct (String.prefix "uc_" field) eqn:Hp.
    - apply prefix_uc in Hp.
      remember (String.substring 3 (String.length field - 3) field) as rest
        eqn:Hrest.
      clear Hrest. subst field.
      rewrite substring_0_all; [reflexivity|].
      cbn. rewrite ?string_length_app. cbn. lia.
    - rewrite substring_0_all; [reflexivity|].
      unfold rocksdb_option_prefix, universal_compaction_opt_prefix.
      rewrite ?string_length_app. cbn. lia. }
  split; [exact H|].
  rewrite H, underscores_to_dashes_length. reflexivity.
Qed.

(** X2: whatever the length of the buffer, [rocksdbOptionName] keeps within
    it, the terminating zero included, and its result has no underscore. *)
Theorem rocksdbOptionName_fits_buffer (field_name : string) (buflen : nat) :
  (0 < buflen)%nat ->
  (String.length (rocksdbOptionName field_name buflen) + 1 <= buflen)%nat /\
  ~ In "_"%char (list_ascii_of_string (rocksdbOptionName field_name buflen)).
Proof.
  intros Hlen. split.
  - unfold rocksdbOptionName, snprintf.
    rewrite underscores_to_dashes_length.
    destruct (String.prefix "uc_" field_name);
      match goal with
      | |- context [String.substring 0 ?n ?s] =>
          pose proof (substring_0_length s n)
      end; lia.
  - unfold rocksdbOptionName.
    generalize (if String.prefix "uc_" field_name
                then snprintf buflen
                       (rocksdb_option_prefix +:+ "-"
                        +:+ universal_compaction_opt_prefix +:+ "-"
                        +:+ String.substring 3 (String.length field_name - 3)
                              field_name)
                else snprintf buflen (rocksdb_option_prefix +:+ "-" +:+ field_name)).
    intros buf. induction buf as [|c buf IH]; simpl; [tauto|].
    intros [H|H]; [|exact (IH H)].
    destruct (Ascii.eqb_spec c "_"); [discriminate H | congruence].
Qed.

(** X3: the parser of [compaction_style] maps [universal] and [level] to
    their constants and throws for every other string. *)
Theorem compaction_style_parser_exact :
  (forall val c,
      In (val, c) compaction_style_names -> compaction_style_parser val = Parsed c) /\
  (forall val,
      ~ In val (map fst compaction_style_names) ->
      compaction_style_parser val =
      Throws ("invalid value '" +:+ val
              +:+ "'for option --rocksdb-compaction-style. "
              +:+ "Expected 'universal' or 'level'")) /\
  (forall val c,
      compaction_style_parser val = Parsed c -> In (val, c) compaction_style_names).
Proof.
  split; [|split].
  - intros val c H. simpl in H.
    repeat (destruct H as [H|H]; [injection H as <- <-; reflexivity|]).
    destruct H.
  - intros val H. unfold compaction_style_parser.
    repeat match goal with
           | |- context [String.eqb val ?s] =>
               destruct (String.eqb_spec val s) as [->|_];
               [exfalso; apply H; simpl; tauto|]
           end.
    reflexivity.
  - intros val c. unfold compaction_style_parser.
    repeat match goal with
           | |- context [String.eqb val ?s] =>
               destruct (String.eqb_spec val s) as [->|_];
               [intros [= <-]; simpl; tauto|]
           end.
    discriminate.
Qed.

(** X4: the parser of [flush_block_policy] maps [default], [each_log] and
    [each_copyset] to their enumerators and throws for every other string;
    the default of the setting is one of the three. *)
Theorem flush_block_policy_parser_exact :
  (forall val c,
      In (val, c) flush_block_policy_names ->
      flush_block_policy_parser val = Parsed c) /\
  (forall val,
      ~ In val (map fst flush_block_policy_names) ->
      flush_block_policy_parser val =
      Throws ("invalid value '" +:+ val
              +:+ "'for option --rocksdb-flush-block-policy. "
              +:+ "Expected 'default', 'each_log' or 'each_copyset'")) /\
  (forall val c,
      flush_block_policy_parser val = Parsed c ->
      In (val, c) flush_block_policy_names) /\
  create_default flush_block_policy_setting = Parsed EACH_LOG.
Proof.
  split; [|split; [|split]].
  - intros val c H. simpl in H.
    repeat (destruct H as [H|H]; [injection H as <- <-; reflexivity|]).
    destruct H.
  - intros val H. unfold flush_block_policy_parser.
    repeat match goal with
           | |- context [String.eqb val ?s] =>
               destruct (String.eqb_spec val s) as [->|_];
               [exfalso; apply H; simpl; tauto|]
           end.
    reflexivity.
  - intros val c. unfold flush_block_policy_parser.
    repeat match goal with
           | |- context [String.eqb val ?s] =>
               destruct (String.eqb_spec val s) as [->|_];
               [intros [= <-]; simpl; tauto|]
           end.
    discriminate.
  - reflexivity.
Qed.

Example to_string_samples :
  to_string 0 = "0" /\ to_string (-12) = "-12" /\ to_string 1234567 = "1234567" /\
  to_string (-1) = "-1" /\ to_string 1000 = "1000".
Proof. repeat split. Qed.

(** X5: a build in which bloom filters work accepts every number of bloom
    bits that is not negative, a build in which they are broken accepts zero
    only; in both builds the default of [bloom_bits_per_key] and of
    [metadata_bloom_bits_per_key] passes the validator of that build. *)
Theorem bloom_bits_validators (BLOOM_UNBROKEN : bool) (val : Z) :
  (bloom_bits_per_key_validator BLOOM_UNBROKEN val = Parsed tt <->
   if BLOOM_UNBROKEN then 0 <= val else val = 0) /\
  (metadata_bloom_bits_per_key_validator BLOOM_UNBROKEN val = Parsed tt <->
   if BLOOM_UNBROKEN then 0 <= val else val = 0) /\
  (exists default,
      parse_decimal (bloom_bits_per_key_default BLOOM_UNBROKEN) = Some default /\
      bloom_bits_per_key_validator BLOOM_UNBROKEN default = Parsed tt) /\
  (exists default,
      parse_decimal metadata_bloom_bits_per_key_default = Some default /\
      metadata_bloom_bits_per_key_validator BLOOM_UNBROKEN default = Parsed tt).
Proof.
  unfold bloom_bits_per_key_validator, metadata_bloom_bits_per_key_validator.
  destruct BLOOM_UNBROKEN.
  - destruct (Z.ltb_spec val 0); (split; [|split; [|split]]);
      try (split; [discriminate || (intros _; lia) | intros; reflexivity || lia]);
      eexists; (split; [reflexivity | reflexivity]).
  - destruct (Z.eqb_spec val 0); cbn [negb]; (split; [|split; [|split]]);
      try (split; [discriminate || (intros _; lia) | intros; reflexivity || lia]);
      eexists; (split; [reflexivity | reflexivity]).
Qed.

(** X6: the validators of the thirteen duration settings.  Ten accept exactly
    the durations that are not negative and three exactly the positive ones.
    The message of a rejection starts with the name that [OPTNAME] gives the
    option for all of them but two: the messages of
    [min_manual_flush_interval] and [partition_data_age_flush_trigger] name
    options under which no setting is registered. *)
Theorem duration_validators_bounds_and_messages :
  Forall (fun entry => forall val, snd entry val = Parsed tt <-> 0 <= val)
    nonnegative_durations /\
  Forall (fun entry => forall val, snd entry val = Parsed tt <-> 0 < val)
    positive_durations /\
  Forall (fun entry => forall val msg,
            snd entry val = Throws msg ->
            (String.prefix ("value of --" +:+ OPTNAME (fst entry) +:+ " must be ")
               msg = true <->
             fst entry <> "min_manual_flush_interval" /\
             fst entry <> "partition_data_age_flush_trigger"))
    (nonnegative_durations ++ positive_durations).
Proof.
  unfold nonnegative_durations, positive_durations. cbn [app].
  split; [|split];
    repeat first [apply List.Forall_nil | apply List.Forall_cons];
    cbn [snd fst]; intros val.
  1-10: match goal with |- ?f _ = _ <-> _ => unfold f end;
    match goal with |- context [?v <? 0] => destruct (Z.ltb_spec v 0) end;
    split; (discriminate || lia || reflexivity).
  1-3: match goal with |- ?f _ = _ <-> _ => unfold f end;
    match goal with |- context [?v <=? 0] => destruct (Z.leb_spec v 0) end;
    split; (discriminate || lia || reflexivity).
  all: intros msg;
    match goal with |- ?f _ = _ -> _ => unfold f end;
    match goal with |- context [if ?c then _ else _] => destruct c end;
    intros Hmsg; try discriminate Hmsg;
    injection Hmsg as <-; vm_compute;
    (split; [intros Hprefix; try discriminate Hprefix; split; discriminate
            | intros [H1 H2]; try reflexivity;
              first [now destruct H1 | now destruct H2]]).
Qed.

(** Witnesses. *)
Lemma compression_type_parser_exact_witness :
  compression_type_parser "zstd" = Parsed rocksdb.kZSTD /\
  compression_type_parser "gzip" =
  Throws "invalid value 'gzip' for option --rocksdb-compression-type".
Proof.
  split.
  - apply (proj1 compression_type_parser_exact). simpl. tauto.
  - apply (proj1 (proj2 compression_type_parser_exact) "gzip").
    simpl. intros H. repeat (destruct H as [H|H]; [discriminate|]). exact H.
Defined.

Lemma compaction_ratelimit_parser_positive_witness :
  compaction_ratelimit_parser sample_parse_rate_limit "5M/1s"
  = Parsed (5000000%N, 1000) /\
  (exists what,
      compaction_ratelimit_parser sample_parse_rate_limit "0/1s" = Throws what) /\
  (exists what,
      compaction_ratelimit_parser sample_parse_rate_limit "fast" = Throws what).
Proof.
  split; [|split].
  - apply (proj1 (proj2 (compaction_ratelimit_parser_positive
                           sample_parse_rate_limit "5M/1s"))).
    + reflexivity.
    + reflexivity.
  - apply (proj2 (proj2 (compaction_ratelimit_parser_positive
                           sample_parse_rate_limit "0/1s"))).
    right. reflexivity.
  - apply (proj2 (proj2 (compaction_ratelimit_parser_positive
                           sample_parse_rate_limit "fast"))).
    left. discriminate.
Defined.

Lemma rocksdbOptionName_fits_buffer_witness :
  rocksdbOptionName "uc_size_ratio" 12 = "rocksdb-uc-" /\
  (String.length (rocksdbOptionName "uc_size_ratio" 12) + 1 <= 12)%nat.
Proof.
  split; [reflexivity|].
  apply (rocksdbOptionName_fits_buffer "uc_size_ratio" 12). lia.
Defined.

Lemma compaction_style_parser_exact_witness :
  compaction_style_parser "level" = Parsed rocksdb.kCompactionStyleLevel /\
  compaction_style_parser "fifo" =
  Throws "invalid value 'fifo'for option --rocksdb-compaction-style. Expected 'universal' or 'level'".
Proof.
  split.
  - apply (proj1 compaction_style_parser_exact). simpl. tauto.
  - apply (proj1 (proj2 compaction_style_parser_exact) "fifo").
    simpl. intros H. repeat (destruct H as [H|H]; [discriminate|]). exact H.
Defined.

Lemma flush_block_policy_parser_exact_witness :
  flush_block_policy_parser "each_copyset" = Parsed EACH_COPYSET /\
  flush_block_policy_parser "each-log" =
  Throws "invalid value 'each-log'for option --rocksdb-flush-block-policy. Expected 'default', 'each_log' or 'each_copyset'".
Proof.
  split.
  - apply (proj1 flush_block_policy_parser_exact). simpl. tauto.
  - apply (proj1 (proj2 flush_block_policy_parser_exact) "each-log").
    simpl. intros H. repeat (destruct H as [H|H]; [discriminate|]). exact H.
Defined.

End RocksDBSettings.

(* ===================================================================== *)
(** * Identifiers shared by the units below *)
(* ===================================================================== *)

(** [ShardID(node_index_t, shard_index_t)]: a node of the cluster and one of
    its shards. *)
Record ShardID : Type := mkShardID {
  shard_node : Z;
  shard_shard : Z
}.

(* ===================================================================== *)
(** * CopySet.h *)
(* ===================================================================== *)

(** [folly::small_vector<T, N>] as far as the copyset types rely on it: a
    sequence whose elements sit in the object itself as long as there are at
    most [N] of them, and in a heap block otherwise. *)
Module folly.

Inductive Storage : Type := InlineStorage | HeapStorage.

Record small_vector (T : Type) (inline_ : nat) : Type := mk_small_vector {
  elements : list T
}.
Arguments mk_small_vector {T inline_} _.
Arguments elements {T inline_} _.

Definition inline_capacity {T inline_} (_ : small_vector T inline_) : nat := inline_.

Definition storage {T inline_} (v : small_vector T inline_) : Storage :=
  if (length (elements v) <=? inline_)%nat then InlineStorage else HeapStorage.

Definition push_back {T inline_} (x : T) (v : small_vector T inline_)
  : small_vector T inline_ :=
  mk_small_vector (elements v ++ [x]).

End folly.

Module CopySet.

Definition COPYSET_INLINE_DEFAULT : nat := 6.

Definition copyset_custsz_t (inline_ : nat) : Type :=
  folly.small_vector ShardID inline_.

(** [copyset_custsz_t<>] takes the default template argument. *)
Definition copyset_t : Type := copyset_custsz_t COPYSET_INLINE_DEFAULT.

(** ** Properties *)

(** C8: [copyset_t] is the small vector of shard ids with the default inline
    capacity, which is 6: a copyset is stored inline exactly as long as it has
    at most 6 elements, and on the heap beyond. *)
Theorem copyset_t_inline_default :
  COPYSET_INLINE_DEFAULT = 6%nat /\
  copyset_t = folly.small_vector ShardID 6 /\
  (forall v : copyset_t,
      folly.inline_capacity v = 6%nat /\
      (folly.storage v = folly.InlineStorage <->
       (length (folly.elements v) <= 6)%nat) /\
      (folly.storage v = folly.HeapStorage <->
       (6 < length (folly.elements v))%nat)).
Proof.
  split; [reflexivity|]. split; [reflexivity|].
  intros [l]. split; [reflexivity|].
  unfold folly.storage. cbn [folly.elements].
  change (length l <=? COPYSET_INLINE_DEFAULT)%nat with (length l <=? 6)%nat.
  destruct (Nat.leb_spec (length l) 6);
    split; split; intros; try congruence; lia.
Qed.

End CopySet.

(* ===================================================================== *)
(** * NodesConfig.cpp *)
(* ===================================================================== *)

Module NodesConfig.

Section calculateHash.

#[local] Set Default Proof Using "Type".

(** IEEE doubles and the [StorageState] enumeration enter the hash only through
    the bytes of their object representation. *)
Variable double : Type.
Variable double_zero : double.
Variable double_bytes : double -> list byte.
Variable StorageState : Type.
Variable StorageState_bytes : StorageState -> list byte.

(** [folly::hash::SpookyHashV2::Hash64(data, size, seed)]. *)
Variable Hash64 : list byte -> Z -> Z.

(** The attributes of a node that [calculateHash] reads; [locationStr] is the
    result of the method of that name. *)
Record Node : Type := {
  storage_capacity : option double;
  storage_state : StorageState;
  exclude_from_nodesets : bool;
  num_shards : Z;
  locationStr : string
}.

(** [nodes_] is a [std::unordered_map<node_index_t, Node>]: the list gives its
    elements in the order in which the container iterates over them, which
    the standard leaves open. *)
Record NodesConfig : Type := {
  nodes_ : list (Z * Node);
  hash_ : Z;
  num_shards_ : Z
}.

Definition find (node_id : Z) (nodes : list (Z * Node)) : option Node :=
  match List.find (fun kv => fst kv =? node_id) nodes with
  | Some kv => Some (snd kv)
  | None => None
  end.

(** [std::sort] on [node_index_t] with [<]. *)
Definition sort (ids : list Z) : list Z := merge_sort Z.le ids.

Definition sizeof_node_index_t : nat := 2.
Definition sizeof_shard_size_t : nat := 2.

(** The lambda [append]: the capacity it reserves does not show in the
    contents. *)
Definition append (hashable_string : list byte) (bytes : list byte) : list byte :=
  hashable_string ++ bytes.

Definition bool_bytes (b : bool) : list byte := [byte_of_Z (if b then 1 else 0)].

(** One turn of the loop over [sorted_node_ids]. *)
Definition append_node (nodes : list (Z * Node)) (hashable_string : list byte)
    (node_id : Z) : list byte :=
  match find node_id nodes with
  | None => hashable_string (* excluded by [ld_check(it != nodes_.end())] *)
  | Some node =>
      let location_str := locationStr node in
      let s := append hashable_string (le_bytes sizeof_node_index_t node_id) in
      let storage_capacity' := default double_zero (storage_capacity node) in
      let s := append s (double_bytes storage_capacity') in
      let s := append s (StorageState_bytes (storage_state node)) in
      let s := append s (bool_bytes (exclude_from_nodesets node)) in
      let s := append s (le_bytes sizeof_shard_size_t (num_shards node)) in
      append s (list_byte_of_string location_str ++ [byte_of_Z 0])
  end.

Definition SEED : Z := 0x9a6bf3f8ebcd8cdf.

Definition hashable_string_of (nodes : list (Z * Node)) : list byte :=
  let sorted_node_ids := sort (map fst nodes) in
  fold_left (append_node nodes) sorted_node_ids [].

Definition calculateHash (self : NodesConfig) : NodesConfig :=
  {| nodes_ := nodes_ self;
     hash_ := Hash64 (hashable_string_of (nodes_ self)) SEED;
     num_shards_ := num_shards_ self |}.

(** Two containers hold equal associations when a lookup of any node index
    gives the same answer in both. *)
Definition same_associations (a b : list (Z * Node)) : Prop :=
  forall node_id, find node_id a = find node_id b.

(** The bytes that one turn of the loop of [calculateHash] appends for the
    node with index [node_id]. *)
Definition node_bytes (node_id : Z) (node : Node) : list byte :=
  le_bytes sizeof_node_index_t node_id
  ++ double_bytes (default double_zero (storage_capacity node))
  ++ StorageState_bytes (storage_state node)
  ++ bool_bytes (exclude_from_nodesets node)
  ++ le_bytes sizeof_shard_size_t (num_shards node)
  ++ list_byte_of_string (locationStr node) ++ [byte_of_Z 0].

(** The nodes in the order in which the loop of [calculateHash] visits them. *)
Definition nodes_in_hash_order (nodes : list (Z * Node)) : list (Z * Node) :=
  flat_map
    (fun node_id =>
       match find node_id nodes with
       | Some node => [(node_id, node)]
       | None => []
       end)
    (sort (map fst nodes)).

(** A node with its storage capacity made explicit. *)
Definition with_explicit_capacity (node : Node) : Node :=
  {| storage_capacity := Some (default double_zero (storage_capacity node));
     storage_state := storage_state node;
     exclude_from_nodesets := exclude_from_nodesets node;
     num_shards := num_shards node;
     locationStr := locationStr node |}.

(** *** calculateNumShards *)

(** [node.isReadableStorageNode()], a method of [Node] declared elsewhere. *)
Variable isReadableStorageNode : Node -> bool.

(** The loop over [nodes_], first element of the iteration first: the value
    of [num_shards_] when the loop ends, with the checks that failed. *)
Fixpoint calculateNumShards_loop (nodes : list (Z * Node)) (num_shards_ : Z)
  : Z * list string :=
  match nodes with
  | [] => (num_shards_, [])
  | it :: rest =>
      if negb (isReadableStorageNode (snd it))
      then calculateNumShards_loop rest num_shards_ (* continue *)
      else
        (num_shards (snd it),
         if 0 <? num_shards (snd it) then []
         else ["it.second.num_shards > 0"]) (* break *)
  end.

Definition calculateNumShards (self : NodesConfig) : NodesConfig :=
  {| nodes_ := nodes_ self;
     hash_ := hash_ self;
     num_shards_ := fst (calculateNumShards_loop (nodes_ self) 0) |}.

Definition calculateNumShards_failed_checks (self : NodesConfig) : list string :=
  snd (calculateNumShards_loop (nodes_ self) 0).

(** ** Properties *)

Lemma find_Some_In node_id nodes node :
  find node_id nodes = Some node -> In (node_id, node) nodes.
Proof.
  unfold find. destruct (List.find _ nodes) as [[k n]|] eqn:E; [|discriminate].
  intros [= <-]. apply find_some in E as [Hin Hk]. simpl in Hk.
  apply Z.eqb_eq in Hk. now subst.
Qed.

Lemma In_find_Some node_id nodes :
  In node_id (map fst nodes) -> exists node, find node_id nodes = Some node.
Proof.
  intros Hin. apply in_map_iff in Hin as ([k n] & <- & Hin). unfold find.
  destruct (List.find _ nodes) as [kv|] eqn:E; [eauto|].
  exfalso. apply (find_none _ _ E) in Hin. simpl in Hin.
  now rewrite Z.eqb_refl in Hin.
Qed.

Lemma same_associations_keys a b node_id :
  same_associations a b -> In node_id (map fst a) -> In node_id (map fst b).
Proof.
  intros Hsame Hin. apply In_find_Some in Hin as [node Hfind].
  rewrite Hsame in Hfind. apply find_Some_In in Hfind.
  apply in_map_iff. now exists (node_id, node).
Qed.

Lemma sort_Permutation (l1 l2 : list Z) : l1 ≡ₚ l2 -> sort l1 = sort l2.
Proof.
  intros Hperm. unfold sort.
  apply (Sorted_unique Z.le); try apply Sorted_merge_sort; try apply _.
  now rewrite !merge_sort_Permutation.
Qed.

Lemma append_node_same a b :
  same_associations a b ->
  forall ids acc, fold_left (append_node a) ids acc = fold_left (append_node b) ids acc.
Proof.
  intros Hsame ids. induction ids as [|id ids IH]; intros acc; simpl.
  - reflexivity.
  - rewrite IH. unfold append_node. now rewrite Hsame.
Qed.

(** The check in the loop never fails: every sorted id is a key of the map. *)
Lemma sorted_node_ids_found nodes node_id :
  In node_id (sort (map fst nodes)) -> exists node, find node_id nodes = Some node.
Proof.
  intros Hin. apply In_find_Some.
  apply list_elem_of_In. apply list_elem_of_In in Hin.
  unfold sort in Hin. now rewrite merge_sort_Permutation in Hin.
Qed.

(** C6: two states whose node maps hold equal associations get the same hash,
    whatever the order in which their containers iterate. *)
Theorem calculateHash_iteration_order_independent (c1 c2 : NodesConfig) :
  NoDup (map fst (nodes_ c1)) ->
  NoDup (map fst (nodes_ c2)) ->
  same_associations (nodes_ c1) (nodes_ c2) ->
  hash_ (calculateHash c1) = hash_ (calculateHash c2).
Proof.
  intros Hnd1 Hnd2 Hsame. simpl. f_equal. unfold hashable_string_of.
  assert (Hperm : map fst (nodes_ c1) ≡ₚ map fst (nodes_ c2)).
  { apply NoDup_Permutation; try assumption.
    intros k. rewrite !list_elem_of_In. split.
    - now apply same_associations_keys.
    - apply same_associations_keys. intros k'. symmetry. apply Hsame. }
  rewrite (sort_Permutation _ _ Hperm).
  now apply append_node_same.
Qed.

(** *** Further properties of the hashed bytes *)

Lemma In_find_NoDup node_id node nodes :
  NoDup (map fst nodes) -> In (node_id, node) nodes ->
  find node_id nodes = Some node.
Proof.
  induction nodes as [|[k n] nodes IH]; intros Hnd Hin; [destruct Hin|].
  cbn [map fst] in Hnd. apply NoDup_cons in Hnd as [Hk Hnd].
  unfold find. cbn [List.find fst].
  destruct Hin as [[= -> ->]|Hin].
  - now rewrite Z.eqb_refl.
  - destruct (Z.eqb_spec k node_id) as [->|Hne].
    + exfalso. apply Hk. apply list_elem_of_In, in_map_iff.
      now exists (node_id, node).
    + apply IH; assumption.
Qed.

Lemma fold_left_append_node nodes ids acc :
  fold_left (append_node nodes) ids acc
  = acc ++ flat_map
             (fun kv => node_bytes (fst kv) (snd kv))
             (flat_map
                (fun node_id =>
                   match find node_id nodes with
                   | Some node => [(node_id, node)]
                   | None => []
                   end) ids).
Proof.
  revert acc. induction ids as [|id ids IH]; intros acc; cbn [fold_left flat_map].
  - now rewrite app_nil_r.
  - rewrite IH, flat_map_app. unfold append_node, append, node_bytes.
    destruct (find id nodes) as [node|]; cbn [flat_map fst snd app].
    + now rewrite app_nil_r, <- !app_assoc.
    + reflexivity.
Qed.

Lemma hashable_string_of_nodes_in_hash_order nodes :
  hashable_string_of nodes
  = flat_map (fun kv => node_bytes (fst kv) (snd kv)) (nodes_in_hash_order nodes).
Proof. unfold hashable_string_of. now rewrite fold_left_append_node. Qed.

Lemma map_fst_nodes_in_hash_order nodes :
  map fst (nodes_in_hash_order nodes) = sort (map fst nodes).
Proof.
  unfold nodes_in_hash_order.
  assert (H : forall ids, (forall id, In id ids -> In id (sort (map fst nodes))) ->
              map fst (flat_map
                         (fun node_id =>
                            match find node_id nodes with
                            | Some node => [(node_id, node)]
                            | None => []
                            end) ids) = ids).
  { induction ids as [|id ids IH]; intros Hids; cbn [flat_map map]; [reflexivity|].
    destruct (sorted_node_ids_found nodes id (Hids id (or_introl eq_refl)))
      as [node ->].
    cbn [app map fst]. f_equal. apply IH. intros id' Hid'. apply Hids. now right. }
  apply H. auto.
Qed.

Lemma nodes_in_hash_order_find nodes node_id node :
  In (node_id, node) (nodes_in_hash_order nodes) <-> find node_id nodes = Some node.
Proof.
  unfold nodes_in_hash_order. rewrite in_flat_map. split.
  - intros (id & _ & Hin). destruct (find id nodes) as [n|] eqn:E; [|destruct Hin].
    destruct Hin as [[= -> ->]|[]]. exact E.
  - intros Hfind. exists node_id. split.
    + apply list_elem_of_In. unfold sort. rewrite merge_sort_Permutation.
      apply list_elem_of_In, in_map_iff. exists (node_id, node).
      split; [reflexivity | now apply find_Some_In].
    + rewrite Hfind. now left.
Qed.

(** X7: the check [ld_check(it != nodes_.end())] in the loop of
    [calculateHash] holds in every turn: each of the sorted indexes is a key
    of the map, and the turn appends the record of the node found. *)
Theorem calculateHash_lookup_check_holds (nodes : list (Z * Node)) :
  Forall (fun node_id =>
            exists node,
              find node_id nodes = Some node /\
              forall hashable_string,
                append_node nodes hashable_string node_id
                = hashable_string ++ node_bytes node_id node)
    (sort (map fst nodes)).
Proof.
  apply List.Forall_forall. intros node_id Hin.
  destruct (sorted_node_ids_found nodes node_id Hin) as [node Hfind].
  exists node. split; [exact Hfind|]. intros s.
  unfold append_node, append, node_bytes. rewrite Hfind.
  now rewrite <- !app_assoc.
Qed.

(** X8: the bytes that are hashed are one record per node, the records in
    ascending order of the node indexes: the index, the capacity (zero when
    absent), the storage state, the exclusion flag, the number of shards and
    the location with its terminating zero. *)
Theorem hashable_string_is_sorted_records (nodes : list (Z * Node)) :
  NoDup (map fst nodes) ->
  exists ordered,
    ordered ≡ₚ nodes /\
    Sorted Z.le (map fst ordered) /\
    hashable_string_of nodes
    = flat_map (fun kv => node_bytes (fst kv) (snd kv)) ordered.
Proof.
  intros Hnd. exists (nodes_in_hash_order nodes). split; [|split].
  - apply NoDup_Permutation.
    + apply (NoDup_fmap_1 fst).
      change (fst <$> nodes_in_hash_order nodes)
        with (map fst (nodes_in_hash_order nodes)).
      rewrite map_fst_nodes_in_hash_order. unfold sort.
      now rewrite merge_sort_Permutation.
    + now apply (NoDup_fmap_1 fst).
    + intros [id node]. rewrite !list_elem_of_In, nodes_in_hash_order_find.
      split; [apply find_Some_In | now apply In_find_NoDup].
  - rewrite map_fst_nodes_in_hash_order. apply Sorted_merge_sort. apply _.
  - apply hashable_string_of_nodes_in_hash_order.
Qed.

Lemma find_map_with_explicit_capacity nodes node_id :
  find node_id (map (fun kv => (fst kv, with_explicit_capacity (snd kv))) nodes)
  = option_map with_explicit_capacity (find node_id nodes).
Proof.
  unfold find. induction nodes as [|[k n] nodes IH]; cbn [map List.find fst snd].
  - reflexivity.
  - destruct (k =? node_id); [reflexivity | exact IH].
Qed.

(** X9: a node without a storage capacity is hashed as a node whose capacity
    is zero: making the capacities explicit changes neither the hashed bytes
    nor the hash. *)
Theorem calculateHash_absent_capacity_is_zero (self : NodesConfig) :
  let explicit :=
    {| nodes_ := map (fun kv => (fst kv, with_explicit_capacity (snd kv)))
                     (nodes_ self);
       hash_ := hash_ self;
       num_shards_ := num_shards_ self |} in
  hashable_string_of (nodes_ explicit) = hashable_string_of (nodes_ self) /\
  hash_ (calculateHash explicit) = hash_ (calculateHash self).
Proof.
  cbv zeta. cbn [nodes_ hash_ calculateHash].
  assert (H : hashable_string_of
                (map (fun kv => (fst kv, with_explicit_capacity (snd kv)))
                     (nodes_ self))
              = hashable_string_of (nodes_ self)).
  { unfold hashable_string_of. rewrite map_map. cbn [fst].
    change (map (fun x => fst x) (nodes_ self)) with (map fst (nodes_ self)).
    generalize (sort (map fst (nodes_ self))).
    generalize (@nil byte).
    intros acc ids. revert acc.
    induction ids as [|id ids IH]; intros acc; cbn [fold_left].
    - reflexivity.
    - rewrite IH. f_equal. unfold append_node.
      rewrite find_map_with_explicit_capacity.
      now destruct (find id (nodes_ self)). }
  split; [exact H | now rewrite H].
Qed.

(** *** calculateNumShards *)

Lemma calculateNumShards_loop_none nodes init :
  (forall id node, In (id, node) nodes -> isReadableStorageNode node = false) ->
  calculateNumShards_loop nodes init = (init, []).
Proof.
  induction nodes as [|[k n] nodes IH]; intros H; cbn [calculateNumShards_loop snd].
  - reflexivity.
  - rewrite (H k n (or_introl eq_refl)). cbn [negb].
    apply IH. intros id node Hin. apply (H id node). now right.
Qed.

Lemma calculateNumShards_loop_some nodes init :
  (exists id node, In (id, node) nodes /\ isReadableStorageNode node = true) ->
  exists id node,
    In (id, node) nodes /\ isReadableStorageNode node = true /\
    calculateNumShards_loop nodes init
    = (num_shards node,
       if 0 <? num_shards node then [] else ["it.second.num_shards > 0"]).
Proof.
  induction nodes as [|[k n] nodes IH]; intros (id & node & Hin & Hr).
  - destruct Hin.
  - cbn [calculateNumShards_loop snd].
    destruct (isReadableStorageNode n) eqn:Hn; cbn [negb].
    + exists k, n. split; [now left|]. split; [exact Hn | reflexivity].
    + destruct Hin as [[= -> ->]|Hin]; [congruence|].
      destruct IH as (id' & node' & Hin' & Hr' & Hloop); [eauto|].
      exists id', node'. split; [now right|]. split; assumption.
Qed.

Lemma calculateNumShards_loop_first skipped it rest init :
  Forall (fun kv => isReadableStorageNode (snd kv) = false) skipped ->
  isReadableStorageNode (snd it) = true ->
  calculateNumShards_loop (skipped ++ it :: rest) init
  = (num_shards (snd it),
     if 0 <? num_shards (snd it) then [] else ["it.second.num_shards > 0"]).
Proof.
  intros Hskipped Hit.
  induction Hskipped as [|kv skipped Hkv _ IH];
    cbn [app calculateNumShards_loop].
  - now rewrite Hit.
  - now rewrite Hkv.
Qed.

(** X10: [calculateNumShards] sets the number of shards to zero when the map
    has no readable storage node, and otherwise to the number of shards of
    the first readable storage node in the order of the iteration, whatever
    follows it; the check of the loop fails exactly when that number is not
    positive.  The nodes and the hash stay as they are, and the number of
    shards from before the call does not matter. *)
Theorem calculateNumShards_result (self : NodesConfig) :
  nodes_ (calculateNumShards self) = nodes_ self /\
  hash_ (calculateNumShards self) = hash_ self /\
  ((forall id node,
       In (id, node) (nodes_ self) -> isReadableStorageNode node = false) ->
   num_shards_ (calculateNumShards self) = 0 /\
   calculateNumShards_failed_checks self = []) /\
  (forall skipped it rest,
      nodes_ self = skipped ++ it :: rest ->
      Forall (fun kv => isReadableStorageNode (snd kv) = false) skipped ->
      isReadableStorageNode (snd it) = true ->
      num_shards_ (calculateNumShards self) = num_shards (snd it) /\
      calculateNumShards_failed_checks self
      = if 0 <? num_shards (snd it) then [] else ["it.second.num_shards > 0"]).
Proof.
  split; [reflexivity|]. split; [reflexivity|]. split.
  - intros H. unfold calculateNumShards_failed_checks. cbn [num_shards_ calculateNumShards].
    now rewrite (calculateNumShards_loop_none _ 0 H).
  - intros skipped it rest Hnodes Hskipped Hit.
    unfold calculateNumShards_failed_checks.
    cbn [num_shards_ calculateNumShards]. rewrite Hnodes.
    rewrite (calculateNumShards_loop_first skipped it rest 0 Hskipped Hit).
    split; reflexivity.
Qed.

(** X11: when all readable storage nodes have the same number of shards, as
    the comment in the loop expects, the result of [calculateNumShards] does
    not depend on the order in which the container iterates; when that number
    is positive, the check in the loop holds. *)
Theorem calculateNumShards_iteration_order_independent (c1 c2 : NodesConfig)
    (n : Z) :
  NoDup (map fst (nodes_ c1)) ->
  NoDup (map fst (nodes_ c2)) ->
  same_associations (nodes_ c1) (nodes_ c2) ->
  (forall id node,
      In (id, node) (nodes_ c1) -> isReadableStorageNode node = true ->
      num_shards node = n) ->
  num_shards_ (calculateNumShards c1) = num_shards_ (calculateNumShards c2) /\
  (0 < n ->
   calculateNumShards_failed_checks c1 = [] /\
   calculateNumShards_failed_checks c2 = []).
Proof.
  intros Hnd1 Hnd2 Hsame Hn.
  assert (H12 : forall id node, In (id, node) (nodes_ c1) <-> In (id, node) (nodes_ c2)).
  { intros id node. split; intros Hin.
    - apply find_Some_In. rewrite <- Hsame. now apply In_find_NoDup.
    - apply find_Some_In. rewrite Hsame. now apply In_find_NoDup. }
  assert (Hcases :
    (forall id node, In (id, node) (nodes_ c1) -> isReadableStorageNode node = false)
    \/ (exists id node, In (id, node) (nodes_ c1) /\ isReadableStorageNode node = true)).
  { clear. induction (nodes_ c1) as [|[k nd] l IH].
    - left. intros id node [].
    - destruct (isReadableStorageNode nd) eqn:E.
      + right. exists k, nd. split; [now left | exact E].
      + destruct IH as [IH|(id & node & Hin & Hr)].
        * left. intros id node [[= <- <-]|Hin]; [exact E | eauto].
        * right. exists id, node. split; [now right | exact Hr]. }
  unfold calculateNumShards_failed_checks. cbn [num_shards_ calculateNumShards].
  destruct Hcases as [Hnone|Hsome].
  - rewrite (calculateNumShards_loop_none _ 0 Hnone).
    rewrite (calculateNumShards_loop_none (nodes_ c2) 0).
    + split; [reflexivity | intros _; split; reflexivity].
    + intros id node Hin. apply (Hnone id node). now apply H12.
  - destruct (calculateNumShards_loop_some _ 0 Hsome)
      as (id1 & node1 & Hin1 & Hr1 & ->).
    destruct (calculateNumShards_loop_some (nodes_ c2) 0)
      as (id2 & node2 & Hin2 & Hr2 & ->).
    { destruct Hsome as (id & node & Hin & Hr). exists id, node.
      split; [now apply H12 | exact Hr]. }
    cbn [fst snd].
    rewrite (Hn id1 node1 Hin1 Hr1).
    rewrite (Hn id2 node2 (proj2 (H12 id2 node2) Hin2) Hr2).
    split; [reflexivity|]. intros Hpos.
    destruct (Z.ltb_spec 0 n); [split; reflexivity | lia].
Qed.

End calculateHash.

Arguments hash_ {double StorageState} _.
Arguments nodes_ {double StorageState} _.

(** The hashed bytes of a configuration with the single node 258: its index,
    capacity, storage state, exclusion flag, number of shards and location,
    each in its own width, the location with its terminating zero. *)
Example hashable_string_of_one_node :
  hashable_string_of Z 0 (le_bytes 8) Z (le_bytes 1)
    [(258, {| storage_capacity := Some 1; storage_state := 2;
              exclude_from_nodesets := true; num_shards := 3;
              locationStr := "r1" |})]
  = [Byte.x02; Byte.x01;
     Byte.x01; Byte.x00; Byte.x00; Byte.x00; Byte.x00; Byte.x00; Byte.x00;
     Byte.x00;
     Byte.x02;
     Byte.x01;
     Byte.x03; Byte.x00;
     Byte.x72; Byte.x31; Byte.x00].
Proof. vm_compute. reflexivity. Qed.

(** Witness: the same three nodes in two iteration orders. *)
Lemma calculateHash_iteration_order_independent_witness :
  let Hash64 := fun (data : list byte) (seed : Z) =>
                  (le_value data + seed) mod 2 ^ 64 in
  let node := fun (capacity : option Z) (shards : Z) (location : string) =>
    {| storage_capacity := capacity; storage_state := 1;
       exclude_from_nodesets := false; num_shards := shards;
       locationStr := location |} in
  let n0 := node (Some 1) 2 "rg1.dc1.cl1.row1.rk1" in
  let n1 := node None 2 "rg1.dc1.cl1.row1.rk2" in
  let n5 := node (Some 3) 4 EmptyString in
  hash_ (calculateHash Z 0 (le_bytes 8) Z (le_bytes 1) Hash64
           {| nodes_ := [(5, n5); (0, n0); (1, n1)]; hash_ := 0; num_shards_ := 2 |})
  = hash_ (calculateHash Z 0 (le_bytes 8) Z (le_bytes 1) Hash64
             {| nodes_ := [(1, n1); (5, n5); (0, n0)]; hash_ := 7; num_shards_ := 2 |}).
Proof.
  intros Hash64 node n0 n1 n5.
  apply calculateHash_iteration_order_independent.
  - apply (bool_decide_unpack _). vm_compute. exact I.
  - apply (bool_decide_unpack _). vm_compute. exact I.
  - intros k. unfold find. cbn [List.find fst snd nodes_].
    destruct (Z.eqb_spec 5 k), (Z.eqb_spec 0 k), (Z.eqb_spec 1 k);
      try reflexivity; lia.
Defined.

Arguments num_shards_ {double StorageState} _.
Arguments storage_state {double StorageState} _.
Arguments num_shards {double StorageState} _.

(** Without the assumption of the comment in its loop, [calculateNumShards]
    depends on the order of the iteration: the same two storage nodes, with 2
    and with 4 shards, in both orders. *)
Example calculateNumShards_depends_on_order :
  let node := fun (shards : Z) =>
    {| storage_capacity := Some 1; storage_state := 1;
       exclude_from_nodesets := false; num_shards := shards;
       locationStr := EmptyString |} in
  let calculate := fun nodes =>
    num_shards_
      (calculateNumShards Z Z (fun node => storage_state node =? 1)
         {| nodes_ := nodes; hash_ := 0; num_shards_ := 0 |}) in
  calculate [(0, node 2); (1, node 4)] = 2 /\
  calculate [(1, node 4); (0, node 2)] = 4.
Proof. vm_compute. split; reflexivity. Qed.

Lemma hashable_string_is_sorted_records_witness :
  let node := fun (shards : Z) =>
    {| storage_capacity := Some 1; storage_state := 1;
       exclude_from_nodesets := false; num_shards := shards;
       locationStr := "r1" |} in
  let nodes := [(5, node 2); (0, node 4); (1, node 4)] in
  exists ordered,
    ordered ≡ₚ nodes /\
    Sorted Z.le (map fst ordered) /\
    hashable_string_of Z 0 (le_bytes 8) Z (le_bytes 1) nodes
    = flat_map
        (fun kv => node_bytes Z 0 (le_bytes 8) Z (le_bytes 1) (fst kv) (snd kv))
        ordered.
Proof.
  intros node nodes.
  apply (hashable_string_is_sorted_records Z 0 (le_bytes 8) Z (le_bytes 1) nodes).
  apply (bool_decide_unpack _). vm_compute. exact I.
Defined.

Lemma calculateNumShards_result_witness :
  let node := fun (state shards : Z) =>
    {| storage_capacity := Some 1; storage_state := state;
       exclude_from_nodesets := false; num_shards := shards;
       locationStr := EmptyString |} in
  let readable := fun node : Node Z Z => storage_state node =? 1 in
  num_shards_
    (calculateNumShards Z Z readable
       {| nodes_ := [(0, node 0 2); (1, node 3 2)]; hash_ := 0; num_shards_ := 7 |})
  = 0 /\
  num_shards_
    (calculateNumShards Z Z readable
       {| nodes_ := [(0, node 0 2); (1, node 1 4); (2, node 1 6)]; hash_ := 0;
          num_shards_ := 7 |})
  = 4.
Proof.
  intros node readable. split.
  - refine (proj1 (proj1 (proj2 (proj2
              (calculateNumShards_result Z Z readable
                 {| nodes_ := [(0, node 0 2); (1, node 3 2)]; hash_ := 0;
                    num_shards_ := 7 |}))) _)).
    intros id found [[= <- <-]|[[= <- <-]|[]]]; reflexivity.
  - refine (proj1 (proj2 (proj2 (proj2
              (calculateNumShards_result Z Z readable
                 {| nodes_ := [(0, node 0 2); (1, node 1 4); (2, node 1 6)];
                    hash_ := 0; num_shards_ := 7 |})))
              [(0, node 0 2)] (1, node 1 4) [(2, node 1 6)] eq_refl _ eq_refl)).
    repeat constructor.
Defined.

Lemma calculateNumShards_iteration_order_independent_witness :
  let node := fun (state shards : Z) =>
    {| storage_capacity := Some 1; storage_state := state;
       exclude_from_nodesets := false; num_shards := shards;
       locationStr := EmptyString |} in
  let readable := fun node : Node Z Z => storage_state node =? 1 in
  let metadata_only := node 0 1 in
  num_shards_
    (calculateNumShards Z Z readable
       {| nodes_ := [(0, metadata_only); (1, node 1 4); (2, node 1 4)];
          hash_ := 0; num_shards_ := 0 |})
  = num_shards_
      (calculateNumShards Z Z readable
         {| nodes_ := [(2, node 1 4); (0, metadata_only); (1, node 1 4)];
            hash_ := 0; num_shards_ := 0 |}).
Proof.
  intros node readable metadata_only.
  refine (proj1 (calculateNumShards_iteration_order_independent Z Z readable
                   {| nodes_ := [(0, metadata_only); (1, node 1 4); (2, node 1 4)];
                      hash_ := 0; num_shards_ := 0 |}
                   {| nodes_ := [(2, node 1 4); (0, metadata_only); (1, node 1 4)];
                      hash_ := 0; num_shards_ := 0 |} 4 _ _ _ _)).
  - apply (bool_decide_unpack _). vm_compute. exact I.
  - apply (bool_decide_unpack _). vm_compute. exact I.
  - intros k. unfold find. cbn [List.find fst snd nodes_].
    destruct (Z.eqb_spec 0 k), (Z.eqb_spec 1 k), (Z.eqb_spec 2 k);
      try reflexivity; lia.
  - cbn [nodes_].
    intros id found [[= <- <-]|[[= <- <-]|[[= <- <-]|[]]]]; cbn;
      intros H; try reflexivity; discriminate H.
Defined.

End NodesConfig.

(* ===================================================================== *)
(** * Status codes and the protocol reader and writer *)
(* ===================================================================== *)

(** The enumerators of [E] that STORED_Message.cpp names, [BADMSG] for a
    message that ends too early, and [Other] for the rest of the enumeration. *)
Module E.

Inductive Status : Type :=
| OK
| PREEMPTED
| NOSPC
| FAILED
| DISABLED
| DROPPED
| FORWARD
| NOTSTORAGE
| REBUILDING
| SHUTDOWN
| CHECKSUM_MISMATCH
| PROTO
| BADMSG
| Other (code : Z).

#[global] Instance Status_eq_dec : EqDecision Status.
Proof. solve_decision. Defined.

End E.

Module Protocol.

(** The object representation of a trivially copyable type: [sizeof] bytes that
    hold the integer [image] least significant byte first; [of_image] reads a
    value back from such an integer. *)
Record Layout (T : Type) : Type := {
  sizeof : nat;
  image : T -> Z;
  of_image : Z -> T
}.
Arguments sizeof {T} _.
Arguments image {T} _ _.
Arguments of_image {T} _ _.

Definition to_bytes {T} (L : Layout T) (x : T) : list byte :=
  le_bytes (sizeof L) (image L x).

Definition of_bytes {T} (L : Layout T) (bs : list byte) : T :=
  of_image L (le_value bs).

(** A value that its object representation determines. *)
Definition representable {T} (L : Layout T) (x : T) : Prop :=
  of_bytes L (to_bytes L x) = x.

(** [memcpy(&x, src, n)]: the first [n] bytes of the object are replaced. *)
Definition overwrite {T} (L : Layout T) (x : T) (n : nat) (src : list byte) : T :=
  of_bytes L (firstn n src ++ skipn n (to_bytes L x)).

(** Modelled from the spec: the wire protocol is outside the specification and
    ProtocolWriter.h and ProtocolReader.h are missing from the sources.  The
    writer and the reader are modelled by what [serialize] and [deserialize]
    rely on: [write] appends the bytes of an object, [read] takes as many
    bytes from the front of the message and copies them over the object,
    [protoGate(p)] makes the calls that follow do nothing when the protocol
    of the connection is older than [p], a [read] past the end of the message
    fails the reader with [E::BADMSG], a failed reader ignores further calls,
    and [result] gives the message unless the reader has failed. *)
Record ProtocolWriter : Type := {
  w_proto : Z;
  w_proto_gate : Z;
  w_dest : list byte
}.

Definition writer (proto : Z) : ProtocolWriter :=
  {| w_proto := proto; w_proto_gate := 0; w_dest := [] |}.

Definition write_n {T} (L : Layout T) (x : T) (n : nat) (w : ProtocolWriter)
  : ProtocolWriter :=
  if w_proto_gate w <=? w_proto w
  then {| w_proto := w_proto w;
          w_proto_gate := w_proto_gate w;
          w_dest := w_dest w ++ firstn n (to_bytes L x) |}
  else w.

Definition write {T} (L : Layout T) (x : T) (w : ProtocolWriter) : ProtocolWriter :=
  write_n L x (sizeof L) w.

Definition w_protoGate (proto : Z) (w : ProtocolWriter) : ProtocolWriter :=
  {| w_proto := w_proto w; w_proto_gate := proto; w_dest := w_dest w |}.

Record ProtocolReader : Type := {
  r_proto : Z;
  r_proto_gate : Z;
  r_src : list byte;
  r_status : E.Status
}.

Definition reader (proto : Z) (message : list byte) : ProtocolReader :=
  {| r_proto := proto; r_proto_gate := 0; r_src := message; r_status := E.OK |}.

Definition read_n {T} (L : Layout T) (x : T) (n : nat) (r : ProtocolReader)
  : T * ProtocolReader :=
  if bool_decide (r_status r = E.OK) && (r_proto_gate r <=? r_proto r)
  then
    if (n <=? length (r_src r))%nat
    then (overwrite L x n (r_src r),
          {| r_proto := r_proto r;
             r_proto_gate := r_proto_gate r;
             r_src := skipn n (r_src r);
             r_status := r_status r |})
    else (x,
          {| r_proto := r_proto r;
             r_proto_gate := r_proto_gate r;
             r_src := r_src r;
             r_status := E.BADMSG |})
  else (x, r).

Definition read {T} (L : Layout T) (x : T) (r : ProtocolReader) : T * ProtocolReader :=
  read_n L x (sizeof L) r.

Definition r_protoGate (proto : Z) (r : ProtocolReader) : ProtocolReader :=
  {| r_proto := r_proto r;
     r_proto_gate := proto;
     r_src := r_src r;
     r_status := r_status r |}.

(** [MessageReadResult]: the message, or the error of the reader. *)
Definition result {M} (r : ProtocolReader) (make : unit -> M) : E.Status + M :=
  if bool_decide (r_status r = E.OK) then inr (make tt) else inl (r_status r).

(** Layouts of the fixed-width integers. *)
Definition uint_layout (bytes : nat) : Layout Z :=
  {| sizeof := bytes; image := fun z => z; of_image := fun z => z |}.

(** Two's complement reading of an unsigned integer of [bytes] bytes. *)
Definition to_signed (bytes : nat) (u : Z) : Z :=
  if u <? 2 ^ (8 * Z.of_nat bytes - 1) then u else u - 2 ^ (8 * Z.of_nat bytes).

(** ** Properties of object representations and of reading what was written *)

Lemma Z_of_byte_of_Z z : Z_of_byte (byte_of_Z z) = z mod 256.
Proof.
  unfold Z_of_byte, byte_of_Z.
  assert (Hlt : (Z.to_N (z mod 256) < 256)%N).
  { pose proof (Z.mod_pos_bound z 256). lia. }
  erewrite Byte.to_of_N by (symmetry; apply byte_of_ascii_via_N).
  rewrite (N_ascii_embedding _ Hlt).
  pose proof (Z.mod_pos_bound z 256). lia.
Qed.

Lemma length_le_bytes w z : length (le_bytes w z) = w.
Proof. revert z. induction w as [|w IH]; intros z; simpl; [|rewrite IH]; reflexivity. Qed.

Lemma le_value_le_bytes w z : le_value (le_bytes w z) = z mod 2 ^ (8 * Z.of_nat w).
Proof.
  revert z. induction w as [|w IH]; intros z.
  - simpl. now rewrite Z.mod_1_r.
  - cbn [le_bytes le_value]. rewrite Z_of_byte_of_Z, IH.
    replace (8 * Z.of_nat (S w)) with (8 + 8 * Z.of_nat w) by lia.
    rewrite Z.pow_add_r by lia. change (2 ^ 8) with 256.
    rewrite Z.rem_mul_r by lia. reflexivity.
Qed.

Lemma to_bytes_length {T} (L : Layout T) x : length (to_bytes L x) = sizeof L.
Proof. apply length_le_bytes. Qed.

(** An unsigned integer that fits its width is determined by its bytes. *)
Lemma uint_representable bytes x :
  0 <= x < 2 ^ (8 * Z.of_nat bytes) -> representable (uint_layout bytes) x.
Proof.
  intros Hx. unfold representable, of_bytes, to_bytes. simpl.
  rewrite le_value_le_bytes. now apply Z.mod_small.
Qed.

Lemma write_n_allowed {T} (L : Layout T) x proto gate dest :
  gate <= proto ->
  write_n L x (sizeof L)
    {| w_proto := proto; w_proto_gate := gate; w_dest := dest |}
  = {| w_proto := proto; w_proto_gate := gate; w_dest := dest ++ to_bytes L x |}.
Proof.
  intros Hgate. unfold write_n. simpl.
  destruct (Z.leb_spec gate proto); [|lia].
  now rewrite <- (to_bytes_length L x), firstn_all.
Qed.


(** A read from a message that is too short fails the reader and leaves the
    object as it was. *)
Lemma read_n_truncated {T} (L : Layout T) x0 n proto gate src :
  gate <= proto ->
  (length src < n)%nat ->
  read_n L x0 n
    {| r_proto := proto; r_proto_gate := gate; r_src := src; r_status := E.OK |}
  = (x0, {| r_proto := proto; r_proto_gate := gate;
            r_src := src; r_status := E.BADMSG |}).
Proof.
  intros Hgate Hlen. unfold read_n. simpl.
  destruct (Z.leb_spec gate proto); [|lia]. simpl.
  destruct (Nat.leb_spec n (length src)); [lia|reflexivity].
Qed.

(** A reader that has failed ignores a read. *)
Lemma read_n_failed {T} (L : Layout T) x0 n r :
  r_status r <> E.OK -> read_n L x0 n r = (x0, r).
Proof.
  intros Hstatus. unfold read_n.
  now rewrite bool_decide_eq_false_2 by assumption.
Qed.

(** A read of a whole object takes its bytes, whatever follows them. *)
Lemma read_n_taken {T} (L : Layout T) x x0 proto gate rest :
  gate <= proto ->
  read_n L x0 (sizeof L)
    {| r_proto := proto; r_proto_gate := gate;
       r_src := to_bytes L x ++ rest; r_status := E.OK |}
  = (of_bytes L (to_bytes L x),
     {| r_proto := proto; r_proto_gate := gate;
        r_src := rest; r_status := E.OK |}).
Proof.
  intros Hgate. unfold read_n. simpl.
  destruct (Z.leb_spec gate proto); [|lia]. simpl.
  assert (Hlen : (sizeof L <=? length (to_bytes L x ++ rest))%nat = true).
  { apply Nat.leb_le. rewrite length_app, to_bytes_length. lia. }
  rewrite Hlen. f_equal.
  - unfold overwrite.
    rewrite <- (to_bytes_length L x) at 1. rewrite take_app_length.
    now rewrite <- (to_bytes_length L x0), drop_all, app_nil_r.
  - f_equal. rewrite <- (to_bytes_length L x). apply drop_app_length.
Qed.

(** A prefix of a message that is as long as the first object holds it. *)
Lemma prefix_holds_object {T} (L : Layout T) x (p q rest : list byte) :
  p ++ q = to_bytes L x ++ rest ->
  (sizeof L <= length p)%nat ->
  exists p', p = to_bytes L x ++ p' /\ p' ++ q = rest.
Proof.
  intros Heq Hlen. exists (skipn (sizeof L) p).
  assert (Htake : firstn (sizeof L) p = to_bytes L x).
  { assert (H := f_equal (firstn (sizeof L)) Heq).
    rewrite take_app_le in H by assumption.
    rewrite <- (to_bytes_length L x) in H at 2.
    now rewrite take_app_length in H. }
  split.
  - now rewrite <- Htake, take_drop.
  - assert (H := f_equal (skipn (sizeof L)) Heq).
    rewrite drop_app_le in H by assumption.
    rewrite <- (to_bytes_length L x) in H at 2.
    now rewrite drop_app_length in H.
Qed.

End Protocol.

(** * The bytes that calculateHash hashes determine the nodes

    [calculateHash] hashes a string in which the records of the nodes follow
    each other without a count or a separator.  The records can be told apart
    all the same: their fields have a fixed width, up to the location, which
    ends at its terminating zero. *)

Module HashedBytes.

Section hashable_string.

#[local] Set Default Proof Using "Type".

Variable double : Type.
Variable double_zero : double.
Variable double_bytes : double -> list byte.
Variable StorageState : Type.
Variable StorageState_bytes : StorageState -> list byte.

Local Abbreviation Node := (NodesConfig.Node double StorageState).
Local Abbreviation find := (NodesConfig.find double StorageState).
Local Abbreviation node_bytes :=
  (NodesConfig.node_bytes double double_zero double_bytes StorageState
     StorageState_bytes).
Local Abbreviation hashable_string_of :=
  (NodesConfig.hashable_string_of double double_zero double_bytes StorageState
     StorageState_bytes).
Local Abbreviation nodes_in_hash_order :=
  (NodesConfig.nodes_in_hash_order double StorageState).
Local Abbreviation with_explicit_capacity :=
  (NodesConfig.with_explicit_capacity double double_zero StorageState).

(** An object representation of [size] bytes, which determines the object. *)
Definition object_representation {T} (bytes : T -> list byte) (size : nat) : Prop :=
  (forall x, length (bytes x) = size) /\
  (forall x y, bytes x = bytes y -> x = y).

(** The values of [node_index_t] and of [shard_size_t], which the static
    assertions of [calculateHash] require to be two bytes wide. *)
Definition int16_t (z : Z) : Prop := - 2 ^ 15 <= z < 2 ^ 15.

(** An element of [nodes_] as the types of its members allow it, with a
    location in which no zero byte occurs. *)
Definition well_formed (kv : Z * Node) : Prop :=
  int16_t (fst kv) /\
  int16_t (NodesConfig.num_shards (snd kv)) /\
  ~ In x00 (list_byte_of_string (NodesConfig.locationStr _ _ (snd kv))).

(** The element with the capacity that is hashed for it. *)
Definition hashed_attributes (kv : Z * Node) : Z * Node :=
  (fst kv, with_explicit_capacity (snd kv)).

(** ** Properties *)

Lemma le_bytes_int16_inj a b :
  int16_t a -> int16_t b -> le_bytes 2 a = le_bytes 2 b -> a = b.
Proof.
  unfold int16_t. intros Ha Hb H.
  apply (f_equal le_value) in H. rewrite !Protocol.le_value_le_bytes in H.
  change (2 ^ (8 * Z.of_nat 2)) with 65536 in H.
  change (2 ^ 15) with 32768 in *.
  pose proof (Z.div_mod a 65536 ltac:(lia)) as Hda.
  pose proof (Z.div_mod b 65536 ltac:(lia)) as Hdb.
  rewrite H in Hda. lia.
Qed.

Lemma nul_terminated_inj (l1 l2 r1 r2 : list byte) :
  ~ In x00 l1 -> ~ In x00 l2 ->
  l1 ++ x00 :: r1 = l2 ++ x00 :: r2 -> l1 = l2 /\ r1 = r2.
Proof.
  revert l2. induction l1 as [|c l1 IH]; intros [|d l2] H1 H2 H;
    cbn [app] in H.
  - now injection H as ->.
  - injection H as <- _. exfalso. apply H2. now left.
  - injection H as -> _. exfalso. apply H1. now left.
  - injection H as -> H.
    destruct (IH l2) as [-> ->]; try assumption; [| |split; reflexivity].
    + intros Hin. apply H1. now right.
    + intros Hin. apply H2. now right.
Qed.

Lemma list_byte_of_string_inj s1 s2 :
  list_byte_of_string s1 = list_byte_of_string s2 -> s1 = s2.
Proof.
  intros H. apply (f_equal string_of_list_byte) in H.
  now rewrite !string_of_list_byte_of_string in H.
Qed.

Lemma bool_bytes_inj a b :
  NodesConfig.bool_bytes a = NodesConfig.bool_bytes b -> a = b.
Proof. destruct a, b; intros H; try reflexivity; vm_compute in H; discriminate H. Qed.

(** The first record of the hashed bytes gives the attributes of its node and
    the place where the next record starts. *)
Lemma node_bytes_inj size_double size_state kv1 kv2 rest1 rest2 :
  object_representation double_bytes size_double ->
  object_representation StorageState_bytes size_state ->
  well_formed kv1 -> well_formed kv2 ->
  node_bytes (fst kv1) (snd kv1) ++ rest1 = node_bytes (fst kv2) (snd kv2) ++ rest2 ->
  hashed_attributes kv1 = hashed_attributes kv2 /\ rest1 = rest2.
Proof.
  intros [Hdlen Hdinj] [Hslen Hsinj] (Hid1 & Hsh1 & Hloc1) (Hid2 & Hsh2 & Hloc2).
  destruct kv1 as [id1 [cap1 st1 ex1 sh1 loc1]], kv2 as [id2 [cap2 st2 ex2 sh2 loc2]].
  unfold hashed_attributes, NodesConfig.with_explicit_capacity,
    NodesConfig.node_bytes.
  cbn [fst snd NodesConfig.storage_capacity NodesConfig.storage_state
       NodesConfig.exclude_from_nodesets NodesConfig.num_shards
       NodesConfig.locationStr] in *.
  rewrite <- !app_assoc. intros H.
  apply app_inj_1 in H as [Hid H]; [|reflexivity].
  apply app_inj_1 in H as [Hcap H]; [|now rewrite !Hdlen].
  apply app_inj_1 in H as [Hst H]; [|now rewrite !Hslen].
  apply app_inj_1 in H as [Hex H]; [|reflexivity].
  apply app_inj_1 in H as [Hsh H]; [|reflexivity].
  apply nul_terminated_inj in H as [Hloc Hrest]; [|assumption..].
  apply le_bytes_int16_inj in Hid; [|assumption..].
  apply le_bytes_int16_inj in Hsh; [|assumption..].
  apply Hdinj in Hcap. apply Hsinj in Hst.
  apply (bool_bytes_inj ex1 ex2) in Hex.
  apply list_byte_of_string_inj in Hloc.
  split; [|exact Hrest]. congruence.
Qed.

Lemma node_bytes_not_nil node_id node rest : node_bytes node_id node ++ rest <> [].
Proof. unfold NodesConfig.node_bytes. discriminate. Qed.

Lemma records_inj size_double size_state (l1 l2 : list (Z * Node)) :
  object_representation double_bytes size_double ->
  object_representation StorageState_bytes size_state ->
  Forall well_formed l1 -> Forall well_formed l2 ->
  flat_map (fun kv => node_bytes (fst kv) (snd kv)) l1
  = flat_map (fun kv => node_bytes (fst kv) (snd kv)) l2 ->
  map hashed_attributes l1 = map hashed_attributes l2.
Proof.
  intros Hd Hs. revert l2.
  induction l1 as [|kv1 l1 IH]; intros [|kv2 l2] H1 H2 H; cbn [flat_map map] in *.
  - reflexivity.
  - symmetry in H. now apply node_bytes_not_nil in H.
  - now apply node_bytes_not_nil in H.
  - apply List.Forall_cons_iff in H1 as [Hkv1 H1].
    apply List.Forall_cons_iff in H2 as [Hkv2 H2].
    apply (node_bytes_inj size_double size_state) in H as [-> H];
      try assumption.
    f_equal. now apply IH.
Qed.

Lemma well_formed_in_hash_order (nodes : list (Z * Node)) :
  Forall well_formed nodes -> Forall well_formed (nodes_in_hash_order nodes).
Proof.
  intros H. apply List.Forall_forall. intros [id node] Hin.
  apply NodesConfig.nodes_in_hash_order_find, NodesConfig.find_Some_In in Hin.
  now apply (proj1 (List.Forall_forall _ _) H).
Qed.

Lemma find_hashed_attributes (a b : list (Z * Node)) node_id node :
  map hashed_attributes (nodes_in_hash_order a)
  = map hashed_attributes (nodes_in_hash_order b) ->
  find node_id a = Some node ->
  exists node', find node_id b = Some node' /\
                with_explicit_capacity node' = with_explicit_capacity node.
Proof.
  intros Hmap Hfind.
  apply NodesConfig.nodes_in_hash_order_find in Hfind.
  apply (in_map hashed_attributes) in Hfind. rewrite Hmap in Hfind.
  apply in_map_iff in Hfind as ([id' node'] & Heq & Hin).
  pose proof (f_equal fst Heq) as Hid. pose proof (f_equal snd Heq) as Hnode.
  cbn [fst snd hashed_attributes] in Hid, Hnode. subst id'.
  apply NodesConfig.nodes_in_hash_order_find in Hin.
  now exists node'.
Qed.

(** X12: the bytes that [calculateHash] hashes determine the map of the
    nodes.  When the bytes of a capacity and of a storage state have a fixed
    length and determine the value, node indexes and numbers of shards are
    16-bit integers and no location has a zero byte in it, two maps with the
    same hashed bytes have the same node indexes and, for each of them, the
    same attributes, up to a capacity that is absent in one and zero in the
    other: two maps that differ in more than that can only have the same hash
    by a collision of the hash function. *)
Theorem hashable_string_of_injective size_double size_state
    (a b : list (Z * Node)) :
  object_representation double_bytes size_double ->
  object_representation StorageState_bytes size_state ->
  Forall well_formed a -> Forall well_formed b ->
  hashable_string_of a = hashable_string_of b ->
  forall node_id,
    option_map with_explicit_capacity (find node_id a)
    = option_map with_explicit_capacity (find node_id b).
Proof.
  intros Hd Hs Ha Hb H node_id.
  rewrite !NodesConfig.hashable_string_of_nodes_in_hash_order in H.
  apply (records_inj size_double size_state) in H;
    try assumption; try now apply well_formed_in_hash_order.
  destruct (find node_id a) as [node|] eqn:Hfa.
  - destruct (find_hashed_attributes a b node_id node H Hfa)
      as (node' & -> & Heq).
    cbn [option_map]. now rewrite Heq.
  - destruct (find node_id b) as [node'|] eqn:Hfb; [|reflexivity].
    destruct (find_hashed_attributes b a node_id node' (eq_sym H) Hfb)
      as (node & Hfa' & _).
    rewrite Hfa in Hfa'. discriminate Hfa'.
Qed.

End hashable_string.

(** A map in two iteration orders, the capacity of node 1 absent in one and
    zero in the other; capacities and storage states of one byte. *)
Lemma hashable_string_of_injective_witness :
  let node := fun (capacity : option byte) (location : string) =>
    {| NodesConfig.storage_capacity := capacity;
       NodesConfig.storage_state := true;
       NodesConfig.exclude_from_nodesets := false;
       NodesConfig.num_shards := 2;
       NodesConfig.locationStr := location |} in
  let a := [(2, node (Some x07) "rg1.dc2"); (1, node None "rg1.dc1")] in
  let b := [(1, node (Some x00) "rg1.dc1"); (2, node (Some x07) "rg1.dc2")] in
  option_map (NodesConfig.with_explicit_capacity byte x00 bool)
    (NodesConfig.find byte bool 1 a)
  = option_map (NodesConfig.with_explicit_capacity byte x00 bool)
      (NodesConfig.find byte bool 1 b).
Proof.
  intros node a b.
  apply (hashable_string_of_injective byte x00 (fun d => [d]) bool
           NodesConfig.bool_bytes 1 1 a b).
  - split; [reflexivity | intros x y H; now injection H].
  - split; [reflexivity | apply bool_bytes_inj].
  - repeat constructor; try (vm_compute; discriminate);
      cbn; intros H; repeat destruct H as [H|H]; discriminate H || exact H.
  - repeat constructor; try (vm_compute; discriminate);
      cbn; intros H; repeat destruct H as [H|H]; discriminate H || exact H.
  - vm_compute. reflexivity.
Defined.

End HashedBytes.

(* ===================================================================== *)
(** * STORED_Message.cpp *)
(* ===================================================================== *)

Module STORED.

(** [folly::dynamic] values that [getDebugInfo] produces. *)
Inductive dynamic : Type :=
| d_int (z : Z)
| d_string (s : string).

(** [a & b] as a condition. *)
Definition bit_and (a b : Z) : bool := negb (Z.land a b =? 0).

(** [a && b] on integers. *)
Definition logical_and (a b : Z) : bool := negb (a =? 0) && negb (b =? 0).

(** [folly::join(sep, strings)]. *)
Fixpoint join (sep : string) (strings : list string) : string :=
  match strings with
  | [] => EmptyString
  | [s] => s
  | s :: rest => s +:+ sep +:+ join sep rest
  end.

Inductive Disposition : Type := NORMAL | ERROR.

Inductive WorkerType : Type :=
| GENERAL
| MAX
| OtherWorkerType (n : Z).

#[global] Instance WorkerType_eq_dec : EqDecision WorkerType.
Proof. solve_decision. Defined.

Inductive LogLevel : Type :=
| ld_error | ld_info | ld_debug | ld_spew
| RATELIMIT_ERROR | RATELIMIT_WARNING | RATELIMIT_INFO.

(** The members of [STORED_Header] that the unit reads, in the order of their
    declaration; [RecordID] and [NodeID] are declared in other headers. *)
Record STORED_Header (RecordID NodeID : Type) : Type := {
  rid : RecordID;
  wave : Z;
  status : E.Status;
  redirect : NodeID;
  flags : Z;
  shard : Z
}.
Arguments rid {RecordID NodeID} _.
Arguments wave {RecordID NodeID} _.
Arguments status {RecordID NodeID} _.
Arguments redirect {RecordID NodeID} _.
Arguments flags {RecordID NodeID} _.
Arguments shard {RecordID NodeID} _.

Definition set_shard {RecordID NodeID} (s : Z) (h : STORED_Header RecordID NodeID)
  : STORED_Header RecordID NodeID :=
  {| rid := rid h; wave := wave h; status := status h;
     redirect := redirect h; flags := flags h; shard := s |}.

Record STORED_Message (RecordID NodeID : Type) : Type := {
  header_ : STORED_Header RecordID NodeID;
  rebuilding_version_ : Z;
  rebuilding_wave_ : Z;
  rebuilding_id_ : Z;
  flushToken_ : Z;
  serverInstanceId_ : Z;
  rebuildingRecipient_ : ShardID
}.
Arguments header_ {RecordID NodeID} _.
Arguments rebuilding_version_ {RecordID NodeID} _.
Arguments rebuilding_wave_ {RecordID NodeID} _.
Arguments rebuilding_id_ {RecordID NodeID} _.
Arguments flushToken_ {RecordID NodeID} _.
Arguments serverInstanceId_ {RecordID NodeID} _.
Arguments rebuildingRecipient_ {RecordID NodeID} _.

(** ** Sample instances

    A packed layout of the header around 16-byte record ids and 4-byte node
    ids, both held as integers, with status codes of two bytes, and a layout
    of [ShardID] as two 16-bit integers.  The properties below do not depend
    on them: they instantiate the declarations that the unit takes from its
    headers, for the examples and witnesses at the end. *)
Definition sample_status_code (e : E.Status) : Z :=
  match e with
  | E.OK => 0 | E.PREEMPTED => 1 | E.NOSPC => 2 | E.FAILED => 3
  | E.DISABLED => 4 | E.DROPPED => 5 | E.FORWARD => 6 | E.NOTSTORAGE => 7
  | E.REBUILDING => 8 | E.SHUTDOWN => 9 | E.CHECKSUM_MISMATCH => 10
  | E.PROTO => 11 | E.BADMSG => 12 | E.Other code => code
  end.

Definition sample_status_of_code (code : Z) : E.Status :=
  nth (Z.to_nat code)
    [E.OK; E.PREEMPTED; E.NOSPC; E.FAILED; E.DISABLED; E.DROPPED; E.FORWARD;
     E.NOTSTORAGE; E.REBUILDING; E.SHUTDOWN; E.CHECKSUM_MISMATCH; E.PROTO;
     E.BADMSG]
    (E.Other code).

Definition sample_STORED_Header_layout : Protocol.Layout (STORED_Header Z Z) :=
  {| Protocol.sizeof := 29;
     Protocol.image := fun h =>
       rid h
       + 2 ^ 128 * (wave h
       + 2 ^ 32 * (sample_status_code (status h)
       + 2 ^ 16 * (redirect h
       + 2 ^ 32 * (flags h
       + 2 ^ 8 * (shard h mod 2 ^ 16)))));
     Protocol.of_image := fun z =>
       {| rid := z mod 2 ^ 128;
          wave := (z / 2 ^ 128) mod 2 ^ 32;
          status := sample_status_of_code ((z / 2 ^ 160) mod 2 ^ 16);
          redirect := (z / 2 ^ 176) mod 2 ^ 32;
          flags := (z / 2 ^ 208) mod 2 ^ 8;
          shard := Protocol.to_signed 2 ((z / 2 ^ 216) mod 2 ^ 16) |} |}.

Definition sample_ShardID_layout : Protocol.Layout ShardID :=
  {| Protocol.sizeof := 4;
     Protocol.image := fun s =>
       shard_node s mod 2 ^ 16 + 2 ^ 16 * (shard_shard s mod 2 ^ 16);
     Protocol.of_image := fun z =>
       mkShardID (Protocol.to_signed 2 (z mod 2 ^ 16))
                 (Protocol.to_signed 2 ((z / 2 ^ 16) mod 2 ^ 16)) |}.

Definition sample_ShardID_isValid (s : ShardID) : bool :=
  negb (shard_node s =? -1) && negb (shard_shard s =? -1).

(** A reply with the given flags, status and rebuilding recipient. *)
Definition sample_message (flags : Z) (status : E.Status) (recipient : ShardID)
  : STORED_Message Z Z :=
  {| header_ :=
       {| rid := 7 + 2 ^ 64 * 4294967396; wave := 2; status := status;
          redirect := 3; flags := flags; shard := 1 |};
     rebuilding_version_ := 4294967297;
     rebuilding_wave_ := 5;
     rebuilding_id_ := 11;
     flushToken_ := 99;
     serverInstanceId_ := 1540000000000;
     rebuildingRecipient_ := recipient |}.

Section STORED_Message.

#[local] Set Default Proof Using "Type".

(** Types, constants and functions that STORED_Message.h and the headers it
    includes declare. *)
Variables RecordID NodeID ClientID : Type.
Variable RecordID_eqb : RecordID -> RecordID -> bool.
Variable RecordID_logid : RecordID -> Z.
Variable RecordID_lsn : RecordID -> Z.
Variable RecordID_toString : RecordID -> string.
Variable NodeID_toString : NodeID -> string.
Variable NodeID_index : NodeID -> Z.
Variable ClientID_valid : ClientID -> bool.
Variable ShardID_isValid : ShardID -> bool.
Variable ShardID_toString : ShardID -> string.
Variable lsn_to_string : Z -> string.
Variable error_name : E.Status -> string.

Local Abbreviation STORED_Header := (STORED_Header RecordID NodeID).
Local Abbreviation STORED_Message := (STORED_Message RecordID NodeID).

(** The bits of [STORED_flags_t]. *)
Variables SYNCED OVERLOADED AMENDABLE_DEPRECATED REBUILDING
          PREMPTED_BY_SOFT_SEAL_ONLY LOW_WATERMARK_NOSPC : Z.

Variable LSN_INVALID : Z.
Variable FlushToken_INVALID : Z.
Variable ServerInstanceId_INVALID : Z.
Variable LOG_REBUILDING_ID_INVALID : Z.

(** [ShardID()], the value of a default-constructed shard id. *)
Variable ShardID_default : ShardID.

(** [Compatibility::REBUILDING_WITHOUT_WAL_2] and
    [STORED_Header::headerSize(proto)]. *)
Variable REBUILDING_WITHOUT_WAL_2 : Z.
Variable headerSize : Z -> nat.

(** Object representations of the types that go over the wire. *)
Variable STORED_Header_layout : Protocol.Layout STORED_Header.
Variable lsn_t_layout : Protocol.Layout Z.
Variable FlushToken_layout : Protocol.Layout Z.
Variable ServerInstanceId_layout : Protocol.Layout Z.
Variable log_rebuilding_id_t_layout : Protocol.Layout Z.
Variable ShardID_layout : Protocol.Layout ShardID.

Definition uint32_t_layout : Protocol.Layout Z := Protocol.uint_layout 4.

(** The constructor, with the arguments in its order. *)
Definition new_STORED_Message (header : STORED_Header)
    (rebuilding_version rebuilding_wave rebuilding_id flushToken
       serverInstanceId : Z) (rebuildingRecipient : ShardID) : STORED_Message :=
  {| header_ := header;
     rebuilding_version_ := rebuilding_version;
     rebuilding_wave_ := rebuilding_wave;
     rebuilding_id_ := rebuilding_id;
     flushToken_ := flushToken;
     serverInstanceId_ := serverInstanceId;
     rebuildingRecipient_ := rebuildingRecipient |}.

(** ** serialize and deserialize *)

Definition serialize (self : STORED_Message) (writer : Protocol.ProtocolWriter)
  : Protocol.ProtocolWriter :=
  let writer :=
    Protocol.write_n STORED_Header_layout (header_ self)
      (headerSize (Protocol.w_proto writer)) writer in
  let writer :=
    if bit_and (flags (header_ self)) REBUILDING then
      let writer := Protocol.write lsn_t_layout (rebuilding_version_ self) writer in
      let writer := Protocol.write uint32_t_layout (rebuilding_wave_ self) writer in
      let writer := Protocol.write FlushToken_layout (flushToken_ self) writer in
      let writer :=
        Protocol.write ServerInstanceId_layout (serverInstanceId_ self) writer in
      let writer := Protocol.w_protoGate REBUILDING_WITHOUT_WAL_2 writer in
      Protocol.write log_rebuilding_id_t_layout (rebuilding_id_ self) writer
    else writer in
  if bool_decide (status (header_ self) = E.REBUILDING)
  then Protocol.write ShardID_layout (rebuildingRecipient_ self) writer
  else writer.

(** [uninit] is the indeterminate content of the local [hdr] before its member
    [shard] is assigned. *)
Definition deserialize (uninit : STORED_Header) (reader : Protocol.ProtocolReader)
  : E.Status + STORED_Message :=
  let hdr := set_shard (-1) uninit in
  let '(hdr, reader) :=
    Protocol.read_n STORED_Header_layout hdr
      (headerSize (Protocol.r_proto reader)) reader in
  let rebuilding_version := LSN_INVALID in
  let rebuilding_wave := 0 in
  let flushToken := FlushToken_INVALID in
  let serverInstanceId := ServerInstanceId_INVALID in
  let rebuilding_id := LOG_REBUILDING_ID_INVALID in
  let '(rebuilding_version, rebuilding_wave, flushToken, serverInstanceId,
        rebuilding_id, reader) :=
    if bit_and (flags hdr) REBUILDING then
      let '(rebuilding_version, reader) :=
        Protocol.read lsn_t_layout rebuilding_version reader in
      let '(rebuilding_wave, reader) :=
        Protocol.read uint32_t_layout rebuilding_wave reader in
      let '(flushToken, reader) :=
        Protocol.read FlushToken_layout flushToken reader in
      let '(serverInstanceId, reader) :=
        Protocol.read ServerInstanceId_layout serverInstanceId reader in
      let reader := Protocol.r_protoGate REBUILDING_WITHOUT_WAL_2 reader in
      let '(rebuilding_id, reader) :=
        Protocol.read log_rebuilding_id_t_layout rebuilding_id reader in
      (rebuilding_version, rebuilding_wave, flushToken, serverInstanceId,
       rebuilding_id, reader)
    else
      (rebuilding_version, rebuilding_wave, flushToken, serverInstanceId,
       rebuilding_id, reader) in
  let rebuildingRecipient := ShardID_default in
  let '(rebuildingRecipient, reader) :=
    if bool_decide (status hdr = E.REBUILDING)
    then Protocol.read ShardID_layout rebuildingRecipient reader
    else (rebuildingRecipient, reader) in
  Protocol.result reader (fun _ =>
    new_STORED_Message hdr rebuilding_version rebuilding_wave rebuilding_id
      flushToken serverInstanceId rebuildingRecipient).

(** The bytes that [serialize] puts on a connection of protocol [proto]. *)
Definition wire_bytes (proto : Z) (m : STORED_Message) : list byte :=
  Protocol.w_dest (serialize m (Protocol.writer proto)).

(** ** getDebugInfo *)

Definition flagsToString (flags : Z) : string :=
  let FLAG (x : Z) (name : string) (strings : list string) :=
    if bit_and flags x then strings ++ [name] else strings in
  let strings := [] in
  let strings := FLAG SYNCED "SYNCED" strings in
  let strings := FLAG OVERLOADED "OVERLOADED" strings in
  let strings := FLAG AMENDABLE_DEPRECATED "AMENDABLE_DEPRECATED" strings in
  let strings := FLAG REBUILDING "REBUILDING" strings in
  let strings :=
    FLAG PREMPTED_BY_SOFT_SEAL_ONLY "PREMPTED_BY_SOFT_SEAL_ONLY" strings in
  let strings := FLAG LOW_WATERMARK_NOSPC "LOW_WATERMARK_NOSPC" strings in
  join "|" strings.

Definition getDebugInfo (self : STORED_Message) : list (string * dynamic) :=
  let add (key : string) (val : dynamic) (res : list (string * dynamic)) :=
    res ++ [(key, val)] in
  let res := [] in
  let res := add "log_id" (d_int (RecordID_logid (rid (header_ self)))) res in
  let res :=
    add "lsn" (d_string (lsn_to_string (RecordID_lsn (rid (header_ self))))) res in
  let res := add "wave" (d_int (wave (header_ self))) res in
  let res := add "status" (d_string (error_name (status (header_ self)))) res in
  let res :=
    add "redirect" (d_string (NodeID_toString (redirect (header_ self)))) res in
  let res := add "flags" (d_string (flagsToString (flags (header_ self)))) res in
  let res := add "shard" (d_int (shard (header_ self))) res in
  let res :=
    add "rebuilding_version"
      (d_string (lsn_to_string (rebuilding_version_ self))) res in
  if logical_and (flags (header_ self)) REBUILDING then
    let res := add "rebuilding_wave" (d_int (rebuilding_wave_ self)) res in
    let res := add "rebuilding_id" (d_int (rebuilding_id_ self)) res in
    let res := add "flush_token" (d_int (flushToken_ self)) res in
    let res := add "server_instance_id" (d_int (serverInstanceId_ self)) res in
    add "rebuilding_recipient"
      (d_string (ShardID_toString (rebuildingRecipient_ self))) res
  else res.

(** The keys of the entries that [getDebugInfo] adds inside its conditional. *)
Definition rebuilding_keys : list string :=
  ["rebuilding_wave"; "rebuilding_id"; "flush_token"; "server_instance_id";
   "rebuilding_recipient"].

(** ** The worker that handles the message *)

Inductive Address : Type :=
| ClientAddress (id_client : ClientID)
| ServerAddress (id_node : NodeID).

Definition isClientAddress (a : Address) : bool :=
  match a with ClientAddress _ => true | ServerAddress _ => false end.

(** A reply that an [Appender] holds back. *)
Record Reply : Type := {
  reply_hdr : STORED_Header;
  reply_from : ShardID;
  reply_rebuildingRecipient : ShardID
}.

Record SendSTOREDRequest : Type := {
  req_header_ : STORED_Header;
  req_rebuilding_version_ : Z;
  req_rebuilding_wave_ : Z;
  req_rebuilding_id_ : Z;
  req_flushToken_ : Z;
  req_rebuildingRecipient_ : ShardID;
  req_to_ : ClientID;
  req_target_worker_ : Z
}.

(** Appenders, log rebuildings and the tables that hold them are state of
    other units.  [World] is that state; the methods this unit calls on it are
    taken as they are, by their result and their effect on that state.
    [sendMessage] and [postRequest] return zero when the message or request
    was taken; otherwise they leave the reason in [err], from where the
    callers take it for their log line: [sendMessage_err] and
    [postRequest_err] give that reason. *)
Variables Appender LogRebuilding RecordRebuilding World : Type.
Variable activeAppenders_find : World -> RecordID -> option Appender.
Variable Appender_key : Appender -> World -> RecordID.
Variable Appender_onReply :
  Appender -> STORED_Header -> ShardID -> ShardID -> World -> Z * World.
Variable Appender_repliesHeld : Appender -> World -> Z.
Variable Appender_repliesExpected : Appender -> World -> Z.
Variable Appender_holdReply :
  Appender -> STORED_Header -> ShardID -> ShardID -> World -> World.
Variable Appender_takeHeldReplies : Appender -> World -> list Reply * World.
Variable runningLogRebuildings_find : World -> Z -> Z -> option LogRebuilding.
Variable findRecordRebuilding : LogRebuilding -> Z -> World -> option RecordRebuilding.
Variable RecordRebuilding_onStored :
  RecordRebuilding -> STORED_Header -> ShardID -> Z -> Z -> Z -> Z -> Z ->
  World -> World.
Variable getWorkerId : World -> ClientID -> WorkerType * Z.
Variable sendMessage_rv : World -> STORED_Message -> ClientID -> Z.
Variable sendMessage_err : World -> STORED_Message -> ClientID -> E.Status.
Variable postRequest_rv : World -> SendSTOREDRequest -> Z.
Variable postRequest_err : World -> SendSTOREDRequest -> E.Status.

(** What the unit reads and writes on its worker thread: the thread-local
    [err], which this unit sets to [E::PROTO] and which the sender and the
    processor set when they fail; the lines it logs (by level and format
    string); the checks that failed; the statistics counters; the messages
    handed to the sender and the requests handed to the processor, in the
    order of the calls and whether or not they were taken. *)
Record Worker : Type := {
  idx_ : Z;
  hold_store_replies : bool;
  serverInstanceId : Z;
  err : E.Status;
  log : list (LogLevel * string);
  failed_checks : list string;
  stats : gmap string nat;
  sent : list (STORED_Message * ClientID);
  posted : list SendSTOREDRequest;
  world : World
}.

Definition set_err (e : E.Status) (w : Worker) : Worker :=
  {| idx_ := idx_ w; hold_store_replies := hold_store_replies w;
     serverInstanceId := serverInstanceId w; err := e; log := log w;
     failed_checks := failed_checks w; stats := stats w; sent := sent w;
     posted := posted w; world := world w |}.

Definition add_log (level : LogLevel) (format : string) (w : Worker) : Worker :=
  {| idx_ := idx_ w; hold_store_replies := hold_store_replies w;
     serverInstanceId := serverInstanceId w; err := err w;
     log := log w ++ [(level, format)];
     failed_checks := failed_checks w; stats := stats w; sent := sent w;
     posted := posted w; world := world w |}.

Definition add_failed_check (expr : string) (w : Worker) : Worker :=
  {| idx_ := idx_ w; hold_store_replies := hold_store_replies w;
     serverInstanceId := serverInstanceId w; err := err w; log := log w;
     failed_checks := failed_checks w ++ [expr]; stats := stats w;
     sent := sent w; posted := posted w; world := world w |}.

Definition WORKER_STAT_INCR (name : string) (w : Worker) : Worker :=
  {| idx_ := idx_ w; hold_store_replies := hold_store_replies w;
     serverInstanceId := serverInstanceId w; err := err w; log := log w;
     failed_checks := failed_checks w;
     stats := <[name := S (default 0%nat (stats w !! name))]> (stats w);
     sent := sent w; posted := posted w; world := world w |}.

Definition add_sent (msg : STORED_Message) (to : ClientID) (w : Worker) : Worker :=
  {| idx_ := idx_ w; hold_store_replies := hold_store_replies w;
     serverInstanceId := serverInstanceId w; err := err w; log := log w;
     failed_checks := failed_checks w; stats := stats w;
     sent := sent w ++ [(msg, to)]; posted := posted w; world := world w |}.

Definition add_posted (rq : SendSTOREDRequest) (w : Worker) : Worker :=
  {| idx_ := idx_ w; hold_store_replies := hold_store_replies w;
     serverInstanceId := serverInstanceId w; err := err w; log := log w;
     failed_checks := failed_checks w; stats := stats w; sent := sent w;
     posted := posted w ++ [rq]; world := world w |}.

Definition set_world (x : World) (w : Worker) : Worker :=
  {| idx_ := idx_ w; hold_store_replies := hold_store_replies w;
     serverInstanceId := serverInstanceId w; err := err w; log := log w;
     failed_checks := failed_checks w; stats := stats w; sent := sent w;
     posted := posted w; world := x |}.

(** [ld_check(expr)] and [ld_assert(expr)] report a condition that does not
    hold.  [failed_checks] keeps the text of every check that failed in the
    run: a run in which it grows is one that a process aborting on failed
    checks does not complete. *)
Definition ld_check (cond : bool) (expr : string) (w : Worker) : Worker :=
  if cond then w else add_failed_check expr w.

Definition ld_assert (cond : bool) (expr : string) (w : Worker) : Worker :=
  ld_check cond expr w.

(** [sender().sendMessage(msg, to)] and [processor_->postRequest(rq)]: the
    message or request is handed over and the return code tells whether it
    was taken; when it was not, the callee has set [err]. *)
Definition sendMessage (msg : STORED_Message) (to : ClientID) (w : Worker)
  : Z * Worker :=
  let rv := sendMessage_rv (world w) msg to in
  let handed := add_sent msg to w in
  (rv, if rv =? 0 then handed
       else set_err (sendMessage_err (world w) msg to) handed).

Definition postRequest (rq : SendSTOREDRequest) (w : Worker) : Z * Worker :=
  let rv := postRequest_rv (world w) rq in
  let handed := add_posted rq w in
  (rv, if rv =? 0 then handed
       else set_err (postRequest_err (world w) rq) handed).

(** ** handleOneMessage and onReceived *)

Definition handleOneMessage (header : STORED_Header) (from : ShardID)
    (rebuildingRecipient : ShardID) (w : Worker) : Disposition * Worker :=
  match activeAppenders_find (world w) (rid header) with
  | None =>
      (NORMAL, add_log ld_debug "Appender for record %s sent to %s not found" w)
  | Some appender =>
      let w :=
        ld_assert (RecordID_eqb (rid header) (Appender_key appender (world w)))
          "header.rid == Appender::KeyExtractor()(appender)" w in
      let '(rv, world') :=
        Appender_onReply appender header from rebuildingRecipient (world w) in
      (if rv =? 0 then NORMAL else ERROR, set_world world' w)
  end.

Definition protocol_error_from_client : string :=
  "PROTOCOL ERROR: got a STORED message for record %s from client %s. STORED can only arrive from servers".

Definition protocol_error_no_recipient : string :=
  "PROTOCOL ERROR: got a STORED message for record %s from %s with E::REBUILDING but no valid rebuildingRecipient is provided.".

Definition record_rebuilding_not_found : string :=
  "Couldn't find RecordRebuilding for STORED_Message from %sfor record %lu%s; this is expected if rebuilding set changed or store was slow".

(** The body of the loop over the held replies. *)
Definition process_held_reply (w : Worker) (reply : Reply) : Worker :=
  let '(rv, w) :=
    handleOneMessage (reply_hdr reply) (reply_from reply)
      (reply_rebuildingRecipient reply) w in
  match rv with
  | ERROR =>
      add_log ld_info
        "Got an error on proccessing a held STORED message, but not closing connection." w
  | NORMAL => w
  end.

Definition onReceived (self : STORED_Message) (from : Address) (w : Worker)
  : Disposition * Worker :=
  match from with
  | ClientAddress _ =>
      let w := add_log ld_error protocol_error_from_client w in
      let w := set_err E.PROTO w in
      (ERROR, w)
  | ServerAddress node_ =>
      let shard_idx := shard (header_ self) in
      let w := ld_check (negb (shard_idx =? -1)) "shard_idx != -1" w in
      let shard := mkShardID (NodeID_index node_) shard_idx in
      if bool_decide (status (header_ self) = E.REBUILDING)
         && negb (ShardID_isValid (rebuildingRecipient_ self))
      then
        let w := add_log ld_error protocol_error_no_recipient w in
        let w := set_err E.PROTO w in
        (ERROR, w)
      else if bit_and (flags (header_ self)) REBUILDING then
        match runningLogRebuildings_find (world w)
                (RecordID_logid (rid (header_ self))) shard_idx with
        | None => (NORMAL, add_log RATELIMIT_INFO record_rebuilding_not_found w)
        | Some log_rebuilding =>
            match findRecordRebuilding log_rebuilding
                    (RecordID_lsn (rid (header_ self))) (world w) with
            | None =>
                (NORMAL, add_log RATELIMIT_INFO record_rebuilding_not_found w)
            | Some r =>
                let w :=
                  add_log ld_spew
                    "STORED received for Log:%lu, {Node:%d, serverInstance:%lu,Flushtoken:%lu}" w in
                let world' :=
                  RecordRebuilding_onStored r (header_ self) shard
                    (rebuilding_version_ self) (rebuilding_wave_ self)
                    (rebuilding_id_ self) (serverInstanceId_ self)
                    (flushToken_ self) (world w) in
                (NORMAL, set_world world' w)
            end
        end
      else if hold_store_replies w then
        match activeAppenders_find (world w) (rid (header_ self)) with
        | None =>
            (NORMAL,
             add_log ld_debug "Appender for record %s sent to %s not found" w)
        | Some appender =>
            if Appender_repliesHeld appender (world w) + 1
               <? Appender_repliesExpected appender (world w)
            then
              (NORMAL,
               set_world
                 (Appender_holdReply appender (header_ self) shard
                    (rebuildingRecipient_ self) (world w)) w)
            else
              let '(replies, world') :=
                Appender_takeHeldReplies appender (world w) in
              let w := fold_left process_held_reply replies (set_world world' w) in
              handleOneMessage (header_ self) shard (rebuildingRecipient_ self) w
        end
      else handleOneMessage (header_ self) shard (rebuildingRecipient_ self) w
  end.

(** ** SendSTOREDRequest::execute and createAndSend *)

Inductive Execution : Type := COMPLETE | CONTINUE.

Definition execute (self : SendSTOREDRequest) (w : Worker) : Execution * Worker :=
  let serverInstanceId' := serverInstanceId w in
  let msg :=
    new_STORED_Message (req_header_ self) (req_rebuilding_version_ self)
      (req_rebuilding_wave_ self) (req_rebuilding_id_ self)
      (req_flushToken_ self) serverInstanceId' (req_rebuildingRecipient_ self) in
  let w := ld_check (ClientID_valid (req_to_ self)) "to_.valid()" w in
  let '(rv, w) := sendMessage msg (req_to_ self) w in
  let w :=
    if rv =? 0 then w
    else add_log RATELIMIT_INFO
           "Failed to send a STORED message for %s to %s: %s" w in
  (COMPLETE, w).

(** The [switch] over the status of an unsuccessful store. *)
Definition count_unsuccessful (header : STORED_Header)
    (rebuildingRecipient : ShardID) (w : Worker) : Worker :=
  match status header with
  | E.PREEMPTED => WORKER_STAT_INCR "node_stored_preempted_sent" w
  | E.NOSPC => WORKER_STAT_INCR "node_stored_out_of_space_sent" w
  | E.FAILED =>
      let w :=
        add_log RATELIMIT_ERROR
          "INTERNAL ERROR: Sending STORED with E::FAILED. This should never happen." w in
      ld_check false "false" w
  | E.DISABLED => WORKER_STAT_INCR "node_stored_disabled_sent" w
  | E.DROPPED => WORKER_STAT_INCR "node_stored_dropped_sent" w
  | E.FORWARD => w
  | E.NOTSTORAGE => WORKER_STAT_INCR "node_stored_not_storage_sent" w
  | E.REBUILDING =>
      let w :=
        ld_check (ShardID_isValid rebuildingRecipient)
          "rebuildingRecipient.isValid()" w in
      WORKER_STAT_INCR "node_stored_rebuilding_sent" w
  | E.SHUTDOWN => w
  | E.CHECKSUM_MISMATCH => w
  | _ => add_log RATELIMIT_ERROR "Unexpected error code %u (%s)" w
  end.

(** The part of [createAndSend] after the switch: the reply is sent on this
    worker, passed to the worker that owns the connection, or dropped. *)
Definition send_or_post (header : STORED_Header) (send_to : ClientID)
    (rebuilding_version rebuilding_wave rebuilding_id flushToken : Z)
    (rebuildingRecipient : ShardID) (worker : Worker) : Worker :=
  let target_worker := getWorkerId (world worker) send_to in
  if bool_decide (fst target_worker <> GENERAL) then
    if bool_decide (fst target_worker = MAX) then
      add_log ld_debug
        "Dropping a STORED for %s for delivery to %d as client_id is no longer valid"
        worker
    else
      add_log RATELIMIT_WARNING
        "Dropping a STORED for %s for delivery to %u because this client_id refers to a gossip or background connection (on %s). This is unexpected. Most likely we got a garbage client ID in a STORE message. Or, very unlikely, the connection was closed, and its ID was reused by a different kind of worker."
        worker
  else if snd target_worker =? idx_ worker then
    let serverInstanceId' := serverInstanceId worker in
    let msg :=
      new_STORED_Message header rebuilding_version rebuilding_wave rebuilding_id
        flushToken serverInstanceId' rebuildingRecipient in
    let '(rv, worker) := sendMessage msg send_to worker in
    if rv =? 0 then worker
    else add_log RATELIMIT_INFO
           "Failed to send STORED for %s (wave %u) to %s: %s" worker
  else
    let worker :=
      add_log ld_debug "%s is passing a STORED for %s to %s for delivery to %s"
        worker in
    let send_stored :=
      {| req_header_ := header;
         req_rebuilding_version_ := rebuilding_version;
         req_rebuilding_wave_ := rebuilding_wave;
         req_rebuilding_id_ := rebuilding_id;
         req_flushToken_ := flushToken;
         req_rebuildingRecipient_ := rebuildingRecipient;
         req_to_ := send_to;
         req_target_worker_ := snd target_worker |} in
    let '(rv, worker) := postRequest send_stored worker in
    if rv =? 0 then worker
    else add_log RATELIMIT_INFO
           "Failed to post a SendSTOREDRequest for %s (wave %u) for final delivery to %s: %s"
           worker.

Definition createAndSend (header : STORED_Header) (send_to : ClientID)
    (rebuilding_version rebuilding_wave rebuilding_id flushToken : Z)
    (rebuildingRecipient : ShardID) (worker : Worker) : Worker :=
  let worker := ld_check (ClientID_valid send_to) "send_to.valid()" worker in
  let worker :=
    if bool_decide (status header <> E.OK) then
      let worker := WORKER_STAT_INCR "node_stored_unsuccessful_total" worker in
      count_unsuccessful header rebuildingRecipient worker
    else worker in
  send_or_post header send_to rebuilding_version rebuilding_wave rebuilding_id
    flushToken rebuildingRecipient worker.

(** The precondition of [createAndSend] that its checks in the switch state. *)
Definition createAndSend_pre (header : STORED_Header)
    (rebuildingRecipient : ShardID) : Prop :=
  status header <> E.FAILED /\
  (status header = E.REBUILDING -> ShardID_isValid rebuildingRecipient = true).

(** The STORED messages that a worker state holds for delivery: those handed
    to the sender, and those that the posted requests carry. *)
Definition outgoing_headers (w : Worker) : list STORED_Header :=
  map (fun m => header_ (fst m)) (sent w) ++ map req_header_ (posted w).



(** The bytes of the five rebuilding fields, in the order of the wire. *)
Definition rebuilding_fields_bytes (m : STORED_Message) : list byte :=
  Protocol.to_bytes lsn_t_layout (rebuilding_version_ m)
  ++ Protocol.to_bytes uint32_t_layout (rebuilding_wave_ m)
  ++ Protocol.to_bytes FlushToken_layout (flushToken_ m)
  ++ Protocol.to_bytes ServerInstanceId_layout (serverInstanceId_ m)
  ++ Protocol.to_bytes log_rebuilding_id_t_layout (rebuilding_id_ m).

(** What is transmitted: the header, the rebuilding fields when the header
    has the REBUILDING bit, the recipient when the status is [E::REBUILDING]. *)
Definition wire_format (m : STORED_Message) : list byte :=
  Protocol.to_bytes STORED_Header_layout (header_ m)
  ++ (if bit_and (flags (header_ m)) REBUILDING
      then rebuilding_fields_bytes m else [])
  ++ (if bool_decide (status (header_ m) = E.REBUILDING)
      then Protocol.to_bytes ShardID_layout (rebuildingRecipient_ m) else []).

(** A run that reports no protocol error: [err] is as before and no line of
    level [ld_error] has been logged. *)
Definition quiet (w w' : Worker) : Prop :=
  err w' = err w /\
  exists added,
    log w' = log w ++ added /\ Forall (fun line => fst line <> ld_error) added.

(** ** Properties *)

(** The reader has failed: the reads that are left do nothing and the result
    is its error. *)
Ltac reader_has_failed :=
  unfold Protocol.read, Protocol.r_protoGate;
  rewrite ?Protocol.read_n_failed by (cbn; discriminate);
  repeat match goal with
         | |- context [if ?c then _ else _] =>
             destruct c; rewrite ?Protocol.read_n_failed by (cbn; discriminate)
         end;
  reflexivity.

(** One read of [deserialize] from a prefix [p] of the bytes: either the
    prefix ends inside the object, and the reader fails, or the object is
    taken from it. *)
Ltac read_field H L :=
  match type of H with
  | ?p ++ _ = Protocol.to_bytes L ?x ++ _ =>
      let Hlong := fresh "Hlong" in
      let Hshort := fresh "Hshort" in
      destruct (le_lt_dec (Protocol.sizeof L) (length p)) as [Hlong|Hshort];
      [ let p' := fresh "p" in
        let Hp := fresh "Hp" in
        let H' := fresh "Hcut" in
        destruct (Protocol.prefix_holds_object L x _ _ _ H Hlong)
          as (p' & Hp & H');
        rewrite Hp; clear H Hlong Hp; rename H' into H;
        rewrite (Protocol.read_n_taken L) by assumption
      | rewrite (Protocol.read_n_truncated L) by (assumption || lia);
        reader_has_failed ]
  end.

Lemma serialize_wire_format proto (m : STORED_Message) :
  0 <= proto ->
  REBUILDING_WITHOUT_WAL_2 <= proto ->
  headerSize proto = Protocol.sizeof STORED_Header_layout ->
  wire_bytes proto m = wire_format m.
Proof.
  intros H0 Hgate Hsize.
  unfold wire_bytes, wire_format, rebuilding_fields_bytes, serialize,
    Protocol.writer, Protocol.write.
  cbn [Protocol.w_proto]. rewrite Hsize.
  rewrite Protocol.write_n_allowed by assumption.
  destruct (bit_and (flags (header_ m)) REBUILDING).
  - rewrite !Protocol.write_n_allowed by assumption.
    unfold Protocol.w_protoGate.
    cbn [Protocol.w_proto Protocol.w_dest].
    rewrite Protocol.write_n_allowed by assumption.
    destruct (bool_decide (status (header_ m) = E.REBUILDING));
      rewrite ?Protocol.write_n_allowed by assumption;
      cbn [Protocol.w_dest app]; rewrite ?app_nil_r, <- ?app_assoc;
      reflexivity.
  - destruct (bool_decide (status (header_ m) = E.REBUILDING));
      rewrite ?Protocol.write_n_allowed by assumption;
      cbn [Protocol.w_dest app]; rewrite ?app_nil_r; reflexivity.
Qed.



(** C1: the rebuilding entries of [getDebugInfo] are guarded by the logical
    conjunction of the flags word and the constant: with a constant other than
    zero they are present exactly when the flags word is not zero, also when
    the REBUILDING bit is not set in it. *)
Theorem getDebugInfo_rebuilding_entries_logical_and (self : STORED_Message) :
  REBUILDING <> 0 ->
  (forall key,
      In key rebuilding_keys ->
      (In key (map fst (getDebugInfo self)) <-> flags (header_ self) <> 0)) /\
  (flags (header_ self) <> 0 ->
   bit_and (flags (header_ self)) REBUILDING = false ->
   incl rebuilding_keys (map fst (getDebugInfo self))).
Proof.
  intros Hconst.
  assert (Hkeys : map fst (getDebugInfo self) =
                  ["log_id"; "lsn"; "wave"; "status"; "redirect"; "flags";
                   "shard"; "rebuilding_version"]
                  ++ (if flags (header_ self) =? 0 then [] else rebuilding_keys)).
  { unfold getDebugInfo, logical_and.
    destruct (Z.eqb_spec (flags (header_ self)) 0);
      destruct (Z.eqb_spec REBUILDING 0); try contradiction; reflexivity. }
  rewrite Hkeys. split.
  - intros key Hkey. rewrite in_app_iff.
    destruct (Z.eqb_spec (flags (header_ self)) 0) as [Hz|Hnz].
    + split; [|contradiction].
      intros [H|[]]. exfalso. revert H. simpl in Hkey.
      repeat (destruct Hkey as [<-|Hkey];
              [simpl; intros H;
               repeat (destruct H as [H|H]; [discriminate H|]); exact H|]).
      destruct Hkey.
    + split; [intros _; exact Hnz | intros _; right; exact Hkey].
  - intros Hnz _ key Hkey. rewrite in_app_iff. right.
    destruct (Z.eqb_spec (flags (header_ self)) 0); [contradiction | exact Hkey].
Qed.

(** *** onReceived *)

Lemma quiet_refl w : quiet w w.
Proof. split; [reflexivity|]. exists []. now rewrite app_nil_r. Qed.

Lemma quiet_add_log w0 w level format :
  level <> ld_error -> quiet w0 w -> quiet w0 (add_log level format w).
Proof.
  intros Hlevel (Herr & added & Hlog & Hadded). split; [exact Herr|].
  exists (added ++ [(level, format)]). cbn [log add_log]. rewrite Hlog, app_assoc.
  split; [reflexivity|]. apply Forall_app. split; [exact Hadded|].
  now repeat constructor.
Qed.

Lemma quiet_set_world w0 w x : quiet w0 w -> quiet w0 (set_world x w).
Proof. intros H. exact H. Qed.

Lemma quiet_ld_check w0 w cond expr : quiet w0 w -> quiet w0 (ld_check cond expr w).
Proof. intros H. unfold ld_check. destruct cond; exact H. Qed.

Lemma quiet_handleOneMessage w0 w header from recipient :
  quiet w0 w -> quiet w0 (snd (handleOneMessage header from recipient w)).
Proof.
  intros H. unfold handleOneMessage.
  destruct (activeAppenders_find (world w) (rid header)) as [appender|].
  - unfold ld_assert.
    destruct (Appender_onReply _ _ _ _ _) as [rv world'].
    cbn [snd]. apply quiet_set_world. now apply quiet_ld_check.
  - cbn [snd]. now apply quiet_add_log.
Qed.

Lemma quiet_process_held_reply w0 w reply :
  quiet w0 w -> quiet w0 (process_held_reply w reply).
Proof.
  intros H. unfold process_held_reply.
  pose proof (quiet_handleOneMessage w0 w (reply_hdr reply) (reply_from reply)
                (reply_rebuildingRecipient reply) H) as Hq.
  destruct (handleOneMessage _ _ _ w) as [[] w']; cbn [snd] in Hq.
  - exact Hq.
  - now apply quiet_add_log.
Qed.

Lemma quiet_held_replies replies w0 w :
  quiet w0 w -> quiet w0 (fold_left process_held_reply replies w).
Proof.
  revert w. induction replies as [|reply replies IH]; intros w H; simpl.
  - exact H.
  - apply IH. now apply quiet_process_held_reply.
Qed.

(** C3: a STORED message that comes from a client address, or whose status
    is [E::REBUILDING] while its recipient is not valid, is answered by logging
    the protocol error, setting [err] to [E::PROTO] and returning
    [Disposition::ERROR], with nothing else done; a message from a server
    whose recipient is valid whenever its status is [E::REBUILDING] does not
    take that path: [onReceived] leaves [err] as it is and logs no error. *)
Theorem onReceived_protocol_error (self : STORED_Message) (from : Address)
    (w : Worker) :
  let r := onReceived self from w in
  (isClientAddress from = true \/
   (status (header_ self) = E.REBUILDING /\
    ShardID_isValid (rebuildingRecipient_ self) = false) ->
   fst r = ERROR /\ err (snd r) = E.PROTO /\
   log (snd r) =
     log w ++ [(ld_error,
                if isClientAddress from then protocol_error_from_client
                else protocol_error_no_recipient)] /\
   failed_checks (snd r) =
     failed_checks w
     ++ (if isClientAddress from || negb (shard (header_ self) =? -1)
         then [] else ["shard_idx != -1"]) /\
   world (snd r) = world w /\ sent (snd r) = sent w /\
   posted (snd r) = posted w) /\
  (isClientAddress from = false ->
   (status (header_ self) = E.REBUILDING ->
    ShardID_isValid (rebuildingRecipient_ self) = true) ->
   quiet w (snd r)).
Proof.
  cbv zeta. split.
  - destruct from as [c|n].
    + intros _. cbn. rewrite app_nil_r. repeat split.
    + intros [Hclient|[Hstatus Hvalid]]; [discriminate|].
      unfold onReceived. rewrite Hstatus, Hvalid.
      rewrite bool_decide_eq_true_2 by reflexivity. cbn [andb negb fst snd].
      unfold ld_check.
      destruct (shard (header_ self) =? -1); cbn; rewrite ?app_nil_r;
        repeat split.
  - destruct from as [c|n]; [discriminate|]. intros _ Hvalid.
    unfold onReceived.
    assert (Hguard : bool_decide (status (header_ self) = E.REBUILDING)
                     && negb (ShardID_isValid (rebuildingRecipient_ self))
                     = false).
    { destruct (bool_decide_reflect (status (header_ self) = E.REBUILDING))
        as [Hs|Hs]; [|reflexivity].
      now rewrite (Hvalid Hs). }
    rewrite Hguard.
    set (w1 := ld_check _ _ w).
    assert (H1 : quiet w w1) by (apply quiet_ld_check, quiet_refl).
    destruct (bit_and (flags (header_ self)) REBUILDING).
    + destruct (runningLogRebuildings_find _ _ _) as [lr|].
      * destruct (findRecordRebuilding _ _ _) as [rr|]; cbn [snd].
        -- apply quiet_set_world. now apply quiet_add_log.
        -- now apply quiet_add_log.
      * cbn [snd]. now apply quiet_add_log.
    + destruct (hold_store_replies w1).
      * destruct (activeAppenders_find _ _) as [appender|].
        -- destruct (_ <? _).
           ++ cbn [snd]. now apply quiet_set_world.
           ++ destruct (Appender_takeHeldReplies _ _) as [replies world'].
              apply quiet_handleOneMessage, quiet_held_replies.
              now apply quiet_set_world.
        -- cbn [snd]. now apply quiet_add_log.
      * now apply quiet_handleOneMessage.
Qed.

(** *** createAndSend *)

Lemma count_unsuccessful_failed_checks header recipient w :
  createAndSend_pre header recipient ->
  failed_checks (count_unsuccessful header recipient w) = failed_checks w.
Proof.
  intros [Hfailed Hrebuilding]. unfold count_unsuccessful.
  destruct (status header); try reflexivity.
  - now destruct Hfailed.
  - rewrite (Hrebuilding eq_refl). reflexivity.
Qed.

Lemma count_unsuccessful_outgoing header recipient w :
  outgoing_headers (count_unsuccessful header recipient w) = outgoing_headers w.
Proof.
  unfold count_unsuccessful, ld_check.
  destruct (status header); try reflexivity.
  now destruct (ShardID_isValid recipient).
Qed.

Lemma send_or_post_failed_checks header send_to rv wave id ft recipient w :
  failed_checks (send_or_post header send_to rv wave id ft recipient w)
  = failed_checks w.
Proof.
  unfold send_or_post, sendMessage, postRequest.
  repeat match goal with
         | |- context [if ?c then _ else _] => destruct c
         end; reflexivity.
Qed.

Lemma send_or_post_outgoing header send_to rv wave id ft recipient w h :
  In h (outgoing_headers (send_or_post header send_to rv wave id ft recipient w)) ->
  In h (outgoing_headers w) \/ h = header.
Proof.
  unfold send_or_post, sendMessage, postRequest, outgoing_headers.
  repeat match goal with
         | |- context [if ?c then _ else _] => destruct c
         end;
    cbn [sent posted add_log add_sent add_posted set_err fst snd];
    rewrite ?map_app, ?in_app_iff;
    cbn [map In fst header_ req_header_ new_STORED_Message];
    intros H; repeat destruct H as [H|H];
    first [ left; left; exact H | left; right; exact H
          | right; congruence | destruct H ].
Qed.

(** C10: when the status is not [E::FAILED], and the recipient is valid
    whenever the status is [E::REBUILDING], no check of the status switch
    fails in [createAndSend], and every STORED reply it hands over for
    delivery carries the given header, whose status is not [E::FAILED].  The
    two checks of the switch fail exactly outside this precondition. *)
Theorem createAndSend_status_checks (header : STORED_Header) (send_to : ClientID)
    (rebuilding_version rebuilding_wave rebuilding_id flushToken : Z)
    (rebuildingRecipient : ShardID) (worker : Worker) :
  let worker' :=
    createAndSend header send_to rebuilding_version rebuilding_wave
      rebuilding_id flushToken rebuildingRecipient worker in
  (createAndSend_pre header rebuildingRecipient ->
   failed_checks worker' =
     failed_checks worker
     ++ (if ClientID_valid send_to then [] else ["send_to.valid()"]) /\
   (forall h,
       In h (outgoing_headers worker') ->
       In h (outgoing_headers worker) \/ (h = header /\ status h <> E.FAILED))) /\
  (status header = E.FAILED ->
   failed_checks worker' =
     failed_checks worker
     ++ (if ClientID_valid send_to then [] else ["send_to.valid()"])
     ++ ["false"]) /\
  (status header = E.REBUILDING ->
   ShardID_isValid rebuildingRecipient = false ->
   failed_checks worker' =
     failed_checks worker
     ++ (if ClientID_valid send_to then [] else ["send_to.valid()"])
     ++ ["rebuildingRecipient.isValid()"]).
Proof.
  cbv zeta. unfold createAndSend.
  set (w0 := ld_check (ClientID_valid send_to) "send_to.valid()" worker).
  assert (Hw0 : failed_checks w0 =
                failed_checks worker
                ++ (if ClientID_valid send_to then [] else ["send_to.valid()"])).
  { unfold w0, ld_check. destruct (ClientID_valid send_to); cbn;
      now rewrite ?app_nil_r. }
  assert (Hout0 : outgoing_headers w0 = outgoing_headers worker).
  { unfold w0, ld_check. now destruct (ClientID_valid send_to). }
  rewrite send_or_post_failed_checks.
  split; [|split].
  - intros Hpre. split.
    + destruct (bool_decide _); [|exact Hw0].
      now rewrite count_unsuccessful_failed_checks.
    + intros h Hin. apply send_or_post_outgoing in Hin as [Hin| ->].
      * left. rewrite <- Hout0.
        destruct (bool_decide _); [|exact Hin].
        now rewrite count_unsuccessful_outgoing in Hin.
      * right. split; [reflexivity | apply Hpre].
  - intros Hstatus. unfold count_unsuccessful.
    rewrite Hstatus. rewrite bool_decide_eq_true_2 by discriminate.
    cbn. now rewrite Hw0, <- app_assoc.
  - intros Hstatus Hvalid. unfold count_unsuccessful.
    rewrite Hstatus, Hvalid. rewrite bool_decide_eq_true_2 by discriminate.
    cbn. now rewrite Hw0, <- app_assoc.
Qed.

(** *** Further properties of the unit *)

(** X13: [handleOneMessage] returns [ERROR] exactly when the appender of the
    record exists and its [onReply] gives a value other than zero.  Without an
    appender the reply is dropped: the result is [NORMAL], one debug line is
    logged, no check fails and the other units are left as they are.  With an
    appender, [onReply] is called on the state as found; the assertion on the
    key fails exactly when the key of the appender is not the record id. *)
Theorem handleOneMessage_disposition (header : STORED_Header)
    (from rebuildingRecipient : ShardID) (w : Worker) :
  let r := handleOneMessage header from rebuildingRecipient w in
  (fst r = ERROR <->
   exists appender,
     activeAppenders_find (world w) (rid header) = Some appender /\
     fst (Appender_onReply appender header from rebuildingRecipient (world w))
     <> 0) /\
  (activeAppenders_find (world w) (rid header) = None ->
   fst r = NORMAL /\ world (snd r) = world w /\
   failed_checks (snd r) = failed_checks w /\
   log (snd r)
   = log w ++ [(ld_debug, "Appender for record %s sent to %s not found")]) /\
  (forall appender,
      activeAppenders_find (world w) (rid header) = Some appender ->
      world (snd r)
      = snd (Appender_onReply appender header from rebuildingRecipient (world w)) /\
      failed_checks (snd r)
      = failed_checks w
        ++ (if RecordID_eqb (rid header) (Appender_key appender (world w))
            then []
            else ["header.rid == Appender::KeyExtractor()(appender)"])).
Proof.
  cbv zeta. unfold handleOneMessage.
  destruct (activeAppenders_find (world w) (rid header)) as [appender|].
  - set (w1 := ld_assert _ _ w).
    assert (Hw1 : world w1 = world w /\
                  failed_checks w1
                  = failed_checks w
                    ++ (if RecordID_eqb (rid header) (Appender_key appender (world w))
                        then []
                        else ["header.rid == Appender::KeyExtractor()(appender)"])).
    { unfold w1, ld_assert, ld_check. destruct (RecordID_eqb _ _); cbn;
        rewrite ?app_nil_r; split; reflexivity. }
    destruct Hw1 as (Hworld & Hchecks).
    rewrite Hworld.
    destruct (Appender_onReply _ _ _ _ _) as [rv world'] eqn:Hreply.
    cbn [fst snd failed_checks world set_world].
    split; [|split; [discriminate|]].
    + destruct (Z.eqb_spec rv 0) as [->|Hrv]; split.
      * discriminate.
      * intros (a & [= <-] & Ha). rewrite Hreply in Ha. now destruct Ha.
      * intros _. exists appender. rewrite Hreply. split; [reflexivity | exact Hrv].
      * reflexivity.
    + intros a [= <-]. rewrite Hreply. split; [reflexivity | exact Hchecks].
  - cbn [fst snd]. split; [|split].
    + split; [discriminate | intros (a & Ha & _); discriminate Ha].
    + intros _. repeat split.
    + discriminate.
Qed.

Lemma handleOneMessage_error_frame (header : STORED_Header)
    (from rebuildingRecipient : ShardID) (w : Worker) :
  let r := handleOneMessage header from rebuildingRecipient w in
  (fst r = ERROR ->
   exists appender,
     activeAppenders_find (world w) (rid header) = Some appender /\
     fst (Appender_onReply appender header from rebuildingRecipient (world w))
     <> 0) /\
  err (snd r) = err w /\ sent (snd r) = sent w /\ posted (snd r) = posted w.
Proof.
  cbv zeta. unfold handleOneMessage.
  destruct (activeAppenders_find (world w) (rid header)) as [appender|].
  - set (w1 := ld_assert _ _ w).
    assert (Hw1 : world w1 = world w /\ err w1 = err w /\ sent w1 = sent w /\
                  posted w1 = posted w).
    { unfold w1, ld_assert, ld_check. destruct (RecordID_eqb _ _); repeat split. }
    destruct Hw1 as (Hworld & Herr & Hsent & Hposted).
    rewrite Hworld.
    destruct (Appender_onReply _ _ _ _ _) as [rv world'] eqn:Hreply.
    cbn [fst snd err sent posted set_world].
    split; [|repeat split; assumption].
    destruct (Z.eqb_spec rv 0) as [->|Hrv]; [discriminate|].
    intros _. exists appender. rewrite Hreply. split; [reflexivity | exact Hrv].
  - cbn [fst snd]. split; [discriminate | repeat split].
Qed.

Lemma process_held_replies_preserved replies w :
  err (fold_left process_held_reply replies w) = err w /\
  sent (fold_left process_held_reply replies w) = sent w /\
  posted (fold_left process_held_reply replies w) = posted w.
Proof.
  revert w. induction replies as [|reply replies IH]; intros w; cbn [fold_left].
  - repeat split.
  - destruct (IH (process_held_reply w reply)) as (-> & -> & ->).
    unfold process_held_reply.
    pose proof (handleOneMessage_error_frame (reply_hdr reply) (reply_from reply)
                  (reply_rebuildingRecipient reply) w) as (_ & He & Hs & Hp).
    cbv zeta in He, Hs, Hp.
    destruct (handleOneMessage _ _ _ w) as [[] w']; cbn [fst snd] in *;
      cbn [err sent posted add_log]; repeat split; assumption.
Qed.

(** X14: [onReceived] returns [ERROR] only for one of the two protocol
    errors, or when the header has no REBUILDING bit and the appender of the
    record of this very message rejects this reply; a message with the
    REBUILDING bit that is no protocol error always gives [NORMAL], and an
    error in a reply that was held back is not passed on.  [onReceived] itself
    sends nothing. *)
Theorem onReceived_error_sources (self : STORED_Message) (from : Address)
    (w : Worker) :
  let r := onReceived self from w in
  (fst r = ERROR ->
   isClientAddress from = true \/
   (status (header_ self) = E.REBUILDING /\
    ShardID_isValid (rebuildingRecipient_ self) = false) \/
   (bit_and (flags (header_ self)) REBUILDING = false /\
    exists node_ appender world',
      from = ServerAddress node_ /\
      fst (Appender_onReply appender (header_ self)
             (mkShardID (NodeID_index node_) (shard (header_ self)))
             (rebuildingRecipient_ self) world') <> 0)) /\
  sent (snd r) = sent w /\ posted (snd r) = posted w.
Proof.
  cbv zeta. unfold onReceived. destruct from as [c|node_].
  - cbn. split; [intros _; now left | split; reflexivity].
  - set (w1 := ld_check _ _ w).
    assert (Hw1 : sent w1 = sent w /\ posted w1 = posted w).
    { unfold w1, ld_check. destruct (negb _); split; reflexivity. }
    destruct Hw1 as [Hs1 Hp1].
    destruct (bool_decide_reflect (status (header_ self) = E.REBUILDING)) as [Hst|Hst];
      cbn [andb].
    + destruct (ShardID_isValid (rebuildingRecipient_ self)) eqn:Hvalid; cbn [negb].
      2:{ cbn. split; [intros _; right; left; now split | now split]. }
      revert Hs1 Hp1. generalize w1. clear w1. intros w1 Hs1 Hp1.
      destruct (bit_and (flags (header_ self)) REBUILDING) eqn:Hflag.
      * destruct (runningLogRebuildings_find _ _ _) as [lr|];
          [destruct (findRecordRebuilding _ _ _) as [rr|]|];
          cbn; (split; [discriminate | now split]).
      * destruct (hold_store_replies w1).
        -- destruct (activeAppenders_find _ _) as [appender|];
             [destruct (_ <? _)|]; try (cbn; split; [discriminate | now split]).
           destruct (Appender_takeHeldReplies _ _) as [replies world'].
           destruct (process_held_replies_preserved replies (set_world world' w1))
             as (_ & Hs & Hp).
           pose proof (handleOneMessage_error_frame (header_ self)
                         (mkShardID (NodeID_index node_) (shard (header_ self)))
                         (rebuildingRecipient_ self)
                         (fold_left process_held_reply replies
                            (set_world world' w1)))
             as (Herr & _ & Hs' & Hp').
           cbv zeta in Herr, Hs', Hp'. split.
           ++ intros H. apply Herr in H as (a & _ & Ha). right. right.
              split; [reflexivity|]. eauto.
           ++ rewrite Hs', Hp', Hs, Hp. now split.
        -- pose proof (handleOneMessage_error_frame (header_ self)
                         (mkShardID (NodeID_index node_) (shard (header_ self)))
                         (rebuildingRecipient_ self) w1)
             as (Herr & _ & Hs' & Hp').
           cbv zeta in Herr, Hs', Hp'. split.
           ++ intros H. apply Herr in H as (a & _ & Ha). right. right.
              split; [reflexivity|]. eauto.
           ++ rewrite Hs', Hp'. now split.
    + revert Hs1 Hp1. generalize w1. clear w1. intros w1 Hs1 Hp1.
      destruct (bit_and (flags (header_ self)) REBUILDING) eqn:Hflag.
      * destruct (runningLogRebuildings_find _ _ _) as [lr|];
          [destruct (findRecordRebuilding _ _ _) as [rr|]|];
          cbn; (split; [discriminate | now split]).
      * destruct (hold_store_replies w1).
        -- destruct (activeAppenders_find _ _) as [appender|];
             [destruct (_ <? _)|]; try (cbn; split; [discriminate | now split]).
           destruct (Appender_takeHeldReplies _ _) as [replies world'].
           destruct (process_held_replies_preserved replies (set_world world' w1))
             as (_ & Hs & Hp).
           pose proof (handleOneMessage_error_frame (header_ self)
                         (mkShardID (NodeID_index node_) (shard (header_ self)))
                         (rebuildingRecipient_ self)
                         (fold_left process_held_reply replies
                            (set_world world' w1)))
             as (Herr & _ & Hs' & Hp').
           cbv zeta in Herr, Hs', Hp'. split.
           ++ intros H. apply Herr in H as (a & _ & Ha). right. right.
              split; [reflexivity|]. eauto.
           ++ rewrite Hs', Hp', Hs, Hp. now split.
        -- pose proof (handleOneMessage_error_frame (header_ self)
                         (mkShardID (NodeID_index node_) (shard (header_ self)))
                         (rebuildingRecipient_ self) w1)
             as (Herr & _ & Hs' & Hp').
           cbv zeta in Herr, Hs', Hp'. split.
           ++ intros H. apply Herr in H as (a & _ & Ha). right. right.
              split; [reflexivity|]. eauto.
           ++ rewrite Hs', Hp'. now split.
Qed.

Lemma before_delivery_frame (header : STORED_Header) (send_to : ClientID)
    (rebuildingRecipient : ShardID) (worker : Worker) :
  let worker0 := ld_check (ClientID_valid send_to) "send_to.valid()" worker in
  let worker1 :=
    if bool_decide (status header <> E.OK)
    then count_unsuccessful header rebuildingRecipient
           (WORKER_STAT_INCR "node_stored_unsuccessful_total" worker0)
    else worker0 in
  world worker1 = world worker /\ idx_ worker1 = idx_ worker /\
  serverInstanceId worker1 = serverInstanceId worker /\
  err worker1 = err worker /\ sent worker1 = sent worker /\
  posted worker1 = posted worker.
Proof.
  cbv zeta. unfold ld_check, count_unsuccessful, ld_check.
  destruct (ClientID_valid send_to), (bool_decide (status header <> E.OK)),
    (status header), (ShardID_isValid rebuildingRecipient); repeat split.
Qed.

(** X15: [createAndSend] hands over at most one reply, and where it goes is
    decided by the worker that owns the connection.  A connection that is
    closed or belongs to a worker of another kind drops the reply: nothing is
    handed over and [err] stays as it is.  On the worker's own connection one
    message, with the given fields and the server instance id of the
    processor, is handed to the sender; otherwise one request with the same
    fields is handed to the processor for the owning worker.  [err] changes
    only when the sender or the processor does not take what it is handed, and
    then holds the reason it gave. *)
Theorem createAndSend_delivery (header : STORED_Header) (send_to : ClientID)
    (rebuilding_version rebuilding_wave rebuilding_id flushToken : Z)
    (rebuildingRecipient : ShardID) (worker : Worker) :
  let worker' :=
    createAndSend header send_to rebuilding_version rebuilding_wave
      rebuilding_id flushToken rebuildingRecipient worker in
  let target_worker := getWorkerId (world worker) send_to in
  let msg :=
    new_STORED_Message header rebuilding_version rebuilding_wave
      rebuilding_id flushToken (serverInstanceId worker) rebuildingRecipient in
  let send_stored :=
    {| req_header_ := header;
       req_rebuilding_version_ := rebuilding_version;
       req_rebuilding_wave_ := rebuilding_wave;
       req_rebuilding_id_ := rebuilding_id;
       req_flushToken_ := flushToken;
       req_rebuildingRecipient_ := rebuildingRecipient;
       req_to_ := send_to;
       req_target_worker_ := snd target_worker |} in
  (fst target_worker <> GENERAL ->
   sent worker' = sent worker /\ posted worker' = posted worker /\
   err worker' = err worker) /\
  (fst target_worker = GENERAL -> snd target_worker = idx_ worker ->
   sent worker' = sent worker ++ [(msg, send_to)] /\
   posted worker' = posted worker /\
   err worker' =
     if sendMessage_rv (world worker) msg send_to =? 0 then err worker
     else sendMessage_err (world worker) msg send_to) /\
  (fst target_worker = GENERAL -> snd target_worker <> idx_ worker ->
   sent worker' = sent worker /\
   posted worker' = posted worker ++ [send_stored] /\
   err worker' =
     if postRequest_rv (world worker) send_stored =? 0 then err worker
     else postRequest_err (world worker) send_stored).
Proof.
  cbv zeta. unfold createAndSend.
  pose proof (before_delivery_frame header send_to rebuildingRecipient worker)
    as Hframe. cbv zeta in Hframe.
  set (worker1 := if bool_decide (status header <> E.OK) then _ else _) in *.
  destruct Hframe as (Hworld & Hidx & Hsid & Herr & Hsent & Hposted).
  unfold send_or_post, sendMessage, postRequest.
  cbn [world add_log]. rewrite !Hworld, Hidx, Hsid.
  destruct (getWorkerId (world worker) send_to) as [type idx].
  cbn [fst snd].
  destruct (bool_decide_reflect (type <> GENERAL)) as [Htype|Htype].
  - split; [|split]; try (intros ->; now destruct Htype).
    intros _.
    destruct (bool_decide (type = MAX)); cbn; repeat split; assumption.
  - apply dec_stable in Htype.
    destruct (Z.eqb_spec idx (idx_ worker)) as [Heq|Hne].
    + split; [intros H; now destruct H|]. split; [|intros _ H; now destruct H].
      intros _ _.
      destruct (sendMessage_rv _ _ _ =? 0); cbn;
        rewrite ?Hsent, ?Hposted, ?Herr; repeat split.
    + split; [intros H; now destruct H|]. split; [intros _ H; now destruct Hne|].
      intros _ _.
      destruct (postRequest_rv _ _ =? 0); cbn;
        rewrite ?Hsent, ?Hposted, ?Herr; repeat split.
Qed.

(** X16: [createAndSend] counts a reply in [node_stored_unsuccessful_total]
    exactly when its status is not [E::OK]; for [E::OK] no counter moves. *)
Theorem createAndSend_unsuccessful_total (header : STORED_Header)
    (send_to : ClientID)
    (rebuilding_version rebuilding_wave rebuilding_id flushToken : Z)
    (rebuildingRecipient : ShardID) (worker : Worker) :
  let worker' :=
    createAndSend header send_to rebuilding_version rebuilding_wave
      rebuilding_id flushToken rebuildingRecipient worker in
  (status header = E.OK -> stats worker' = stats worker) /\
  (status header <> E.OK ->
   stats worker' !! "node_stored_unsuccessful_total"
   = Some (S (default 0%nat
                (stats worker !! "node_stored_unsuccessful_total")))).
Proof.
  cbv zeta. unfold createAndSend.
  assert (Hdeliver : forall w,
    stats (send_or_post header send_to rebuilding_version rebuilding_wave
             rebuilding_id flushToken rebuildingRecipient w) = stats w).
  { intros w. unfold send_or_post, sendMessage, postRequest.
    repeat match goal with
           | |- context [if ?c then _ else _] => destruct c
           end; reflexivity. }
  rewrite Hdeliver.
  assert (Hw0 : stats (ld_check (ClientID_valid send_to) "send_to.valid()" worker)
                = stats worker).
  { unfold ld_check. now destruct (ClientID_valid send_to). }
  split.
  - intros ->. rewrite bool_decide_eq_false_2 by (intros H; now apply H).
    exact Hw0.
  - intros Hstatus. rewrite bool_decide_eq_true_2 by assumption.
    clear Hdeliver Hw0. unfold count_unsuccessful, ld_check.
    destruct (ClientID_valid send_to), (status header),
      (ShardID_isValid rebuildingRecipient);
      cbn [stats WORKER_STAT_INCR add_log add_failed_check];
      rewrite ?lookup_insert_ne by discriminate;
      apply lookup_insert_eq.
Qed.

Lemma createAndSend_posts (header : STORED_Header) (send_to : ClientID)
    (rebuilding_version rebuilding_wave rebuilding_id flushToken : Z)
    (rebuildingRecipient : ShardID) (worker : Worker) :
  fst (getWorkerId (world worker) send_to) = GENERAL ->
  snd (getWorkerId (world worker) send_to) <> idx_ worker ->
  posted (createAndSend header send_to rebuilding_version rebuilding_wave
            rebuilding_id flushToken rebuildingRecipient worker)
  = posted worker
    ++ [{| req_header_ := header;
           req_rebuilding_version_ := rebuilding_version;
           req_rebuilding_wave_ := rebuilding_wave;
           req_rebuilding_id_ := rebuilding_id;
           req_flushToken_ := flushToken;
           req_rebuildingRecipient_ := rebuildingRecipient;
           req_to_ := send_to;
           req_target_worker_ := snd (getWorkerId (world worker) send_to) |}].
Proof.
  intros Htype Hidx. unfold createAndSend.
  pose proof (before_delivery_frame header send_to rebuildingRecipient worker)
    as Hframe. cbv zeta in Hframe.
  set (worker1 := if bool_decide (status header <> E.OK) then _ else _) in *.
  destruct Hframe as (Hworld & Hidx1 & _ & _ & _ & Hposted).
  unfold send_or_post, postRequest. rewrite Hworld, Hidx1.
  rewrite bool_decide_eq_false_2 by (intros H; now apply H).
  destruct (Z.eqb_spec (snd (getWorkerId (world worker) send_to)) (idx_ worker))
    as [Heq|_]; [contradiction|].
  destruct (postRequest_rv _ _ =? 0); cbn; now rewrite Hposted.
Qed.

(** X17: a posted request, when the worker that owns the connection executes
    it, sends to the client of the request the message that the direct path
    builds from the same fields, with the server instance id found on the
    executing worker; [execute] always completes.  The request that
    [createAndSend] posts carries the arguments of the call. *)
Theorem execute_sends_posted_reply (header : STORED_Header) (send_to : ClientID)
    (rebuilding_version rebuilding_wave rebuilding_id flushToken : Z)
    (rebuildingRecipient : ShardID) (worker executing : Worker) :
  fst (getWorkerId (world worker) send_to) = GENERAL ->
  snd (getWorkerId (world worker) send_to) <> idx_ worker ->
  exists send_stored,
    posted (createAndSend header send_to rebuilding_version rebuilding_wave
              rebuilding_id flushToken rebuildingRecipient worker)
    = posted worker ++ [send_stored] /\
    req_target_worker_ send_stored = snd (getWorkerId (world worker) send_to) /\
    fst (execute send_stored executing) = COMPLETE /\
    sent (snd (execute send_stored executing)) =
      sent executing
      ++ [(new_STORED_Message header rebuilding_version rebuilding_wave
             rebuilding_id flushToken (serverInstanceId executing)
             rebuildingRecipient, send_to)] /\
    posted (snd (execute send_stored executing)) = posted executing /\
    failed_checks (snd (execute send_stored executing)) =
      failed_checks executing
      ++ (if ClientID_valid send_to then [] else ["to_.valid()"]).
Proof.
  intros Htype Hidx.
  rewrite (createAndSend_posts header send_to rebuilding_version
             rebuilding_wave rebuilding_id flushToken rebuildingRecipient
             worker Htype Hidx).
  eexists. split; [reflexivity|]. split; [reflexivity|].
  unfold execute, sendMessage, ld_check. cbn [req_to_ req_header_
    req_rebuilding_version_ req_rebuilding_wave_ req_rebuilding_id_
    req_flushToken_ req_rebuildingRecipient_].
  destruct (ClientID_valid send_to);
    match goal with
    | |- context [sendMessage_rv ?a ?b ?c =? 0] =>
        destruct (sendMessage_rv a b c =? 0)
    end; cbn; rewrite ?app_nil_r; repeat split.
Qed.

(** X18: the size of a STORED message on the wire, for a protocol that has
    the rebuilding id and carries the whole header: the header, the five
    rebuilding fields with the REBUILDING bit, the recipient with the status
    [E::REBUILDING]. *)
Theorem wire_bytes_length proto (m : STORED_Message) :
  0 <= proto ->
  REBUILDING_WITHOUT_WAL_2 <= proto ->
  headerSize proto = Protocol.sizeof STORED_Header_layout ->
  length (wire_bytes proto m) =
    (Protocol.sizeof STORED_Header_layout
     + (if bit_and (flags (header_ m)) REBUILDING
        then Protocol.sizeof lsn_t_layout + 4
             + Protocol.sizeof FlushToken_layout
             + Protocol.sizeof ServerInstanceId_layout
             + Protocol.sizeof log_rebuilding_id_t_layout
        else 0)
     + (if bool_decide (status (header_ m) = E.REBUILDING)
        then Protocol.sizeof ShardID_layout else 0))%nat.
Proof.
  intros H0 Hgate Hsize. rewrite serialize_wire_format by assumption.
  unfold wire_format, rebuilding_fields_bytes.
  destruct (bit_and _ _), (bool_decide _);
    rewrite ?length_app, ?Protocol.to_bytes_length; cbn [length];
    cbn [Protocol.sizeof uint32_t_layout Protocol.uint_layout]; lia.
Qed.

(** X19: the keys of the entries of [getDebugInfo] are pairwise distinct; with
    a REBUILDING constant other than zero there are eight entries for a
    flags word of zero and thirteen otherwise. *)
Theorem getDebugInfo_keys_distinct (self : STORED_Message) :
  NoDup (map fst (getDebugInfo self)) /\
  (REBUILDING <> 0 ->
   length (getDebugInfo self)
   = if flags (header_ self) =? 0 then 8%nat else 13%nat).
Proof.
  unfold getDebugInfo, logical_and.
  destruct (Z.eqb_spec (flags (header_ self)) 0);
    destruct (Z.eqb_spec REBUILDING 0); cbn [negb andb];
    (split; [apply (bool_decide_unpack _); vm_compute; exact I
            | intros H; try contradiction; reflexivity]).
Qed.

(** X20: a STORED message that is cut short is not accepted.  On a protocol
    that has the rebuilding id and carries the whole header, [deserialize]
    answers [E::BADMSG] to every proper prefix of the bytes of a message whose
    header its bytes determine. *)
Theorem deserialize_rejects_truncated uninit proto (m : STORED_Message)
    (received_bytes cut : list byte) :
  0 <= proto ->
  REBUILDING_WITHOUT_WAL_2 <= proto ->
  headerSize proto = Protocol.sizeof STORED_Header_layout ->
  Protocol.representable STORED_Header_layout (header_ m) ->
  received_bytes ++ cut = wire_bytes proto m ->
  cut <> [] ->
  deserialize uninit (Protocol.reader proto received_bytes) = inl E.BADMSG.
Proof.
  intros H0 Hgate Hsize Hhdr Hcut Hne.
  rewrite serialize_wire_format in Hcut by assumption.
  unfold wire_format, rebuilding_fields_bytes in Hcut.
  unfold deserialize, Protocol.reader, Protocol.read.
  cbn [Protocol.r_proto]. rewrite Hsize.
  read_field Hcut STORED_Header_layout.
  rewrite !Hhdr.
  destruct (bit_and (flags (header_ m)) REBUILDING).
  - rewrite <- !app_assoc in Hcut.
    read_field Hcut lsn_t_layout.
    read_field Hcut uint32_t_layout.
    read_field Hcut FlushToken_layout.
    read_field Hcut ServerInstanceId_layout.
    unfold Protocol.r_protoGate.
    cbn [Protocol.r_proto Protocol.r_src Protocol.r_status].
    read_field Hcut log_rebuilding_id_t_layout.
    destruct (bool_decide (status (header_ m) = E.REBUILDING)).
    + rewrite <- (app_nil_r (Protocol.to_bytes ShardID_layout _)) in Hcut.
      read_field Hcut ShardID_layout.
      apply app_eq_nil in Hcut as [_ Hnil]. contradiction.
    + apply app_eq_nil in Hcut as [_ Hnil]. contradiction.
  - cbn [app] in Hcut.
    destruct (bool_decide (status (header_ m) = E.REBUILDING)).
    + rewrite <- (app_nil_r (Protocol.to_bytes ShardID_layout _)) in Hcut.
      read_field Hcut ShardID_layout.
      apply app_eq_nil in Hcut as [_ Hnil]. contradiction.
    + apply app_eq_nil in Hcut as [_ Hnil]. contradiction.
Qed.

End STORED_Message.

Arguments err {RecordID NodeID ClientID World} _.
Arguments log {RecordID NodeID ClientID World} _.
Arguments failed_checks {RecordID NodeID ClientID World} _.
Arguments sent {RecordID NodeID ClientID World} _.
Arguments posted {RecordID NodeID ClientID World} _.
Arguments stats {RecordID NodeID ClientID World} _.
Arguments world {RecordID NodeID ClientID World} _.

(** ** The unit on the sample instances *)

(** Flags SYNCED and OVERLOADED, REBUILDING clear: the rebuilding entries
    are printed all the same. *)
Example getDebugInfo_without_rebuilding_bit :
  getDebugInfo Z Z (fun rid => rid mod 2 ^ 64) (fun rid => rid / 2 ^ 64)
    (fun _ => "N3") (fun _ => "N4:S0") (fun _ => "e1n100") (fun _ => "OK")
    1 2 4 8 16 32 (sample_message 3 E.OK (mkShardID 4 0))
  = [("log_id", d_int 7); ("lsn", d_string "e1n100"); ("wave", d_int 2);
     ("status", d_string "OK"); ("redirect", d_string "N3");
     ("flags", d_string "SYNCED|OVERLOADED"); ("shard", d_int 1);
     ("rebuilding_version", d_string "e1n100");
     ("rebuilding_wave", d_int 5); ("rebuilding_id", d_int 11);
     ("flush_token", d_int 99); ("server_instance_id", d_int 1540000000000);
     ("rebuilding_recipient", d_string "N4:S0")].
Proof. vm_compute. reflexivity. Qed.

Example getDebugInfo_without_flags :
  map fst
    (getDebugInfo Z Z (fun rid => rid mod 2 ^ 64) (fun rid => rid / 2 ^ 64)
       (fun _ => "N3") (fun _ => "N4:S0") (fun _ => "e1n100") (fun _ => "OK")
       1 2 4 8 16 32 (sample_message 0 E.OK (mkShardID 4 0)))
  = ["log_id"; "lsn"; "wave"; "status"; "redirect"; "flags"; "shard";
     "rebuilding_version"].
Proof. vm_compute. reflexivity. Qed.

(** The sizes of the message on the wire: the header alone, and the header
    with the five rebuilding fields and the recipient. *)
Example wire_bytes_lengths :
  let bytes := fun m =>
    wire_bytes Z Z 8 70 (fun _ => 29%nat) sample_STORED_Header_layout
      (Protocol.uint_layout 8) (Protocol.uint_layout 8) (Protocol.uint_layout 8)
      (Protocol.uint_layout 2) sample_ShardID_layout 80 m in
  length (bytes (sample_message 1 E.OK (mkShardID 4 0))) = 29%nat /\
  length (bytes (sample_message 9 E.REBUILDING (mkShardID 4 0)))
  = (29 + (8 + 4 + 8 + 8 + 2) + 4)%nat.
Proof. vm_compute. split; reflexivity. Qed.

(** ** Witnesses, on the sample instances *)



Lemma getDebugInfo_rebuilding_entries_logical_and_witness :
  let no_name := fun _ : Z => EmptyString in
  bit_and 1 8 = false /\
  incl rebuilding_keys
    (map fst
       (getDebugInfo Z Z (fun rid => rid mod 2 ^ 64) (fun rid => rid / 2 ^ 64)
          no_name (fun _ => EmptyString) no_name (fun _ => EmptyString) 1 2 4 8 16 32
          (sample_message 1 E.OK (mkShardID 4 0)))).
Proof.
  intros no_name. split; [reflexivity|].
  apply (getDebugInfo_rebuilding_entries_logical_and Z Z
           (fun rid => rid mod 2 ^ 64) (fun rid => rid / 2 ^ 64)
           no_name (fun _ => EmptyString) no_name (fun _ => EmptyString) 1 2 4 8 16 32
           (sample_message 1 E.OK (mkShardID 4 0))).
  - discriminate.
  - discriminate.
  - reflexivity.
Defined.

Lemma onReceived_protocol_error_witness :
  let receive := fun (m : STORED_Message Z Z) (from : Address Z Z) =>
    onReceived Z Z Z Z.eqb (fun rid => rid mod 2 ^ 64) (fun rid => rid / 2 ^ 64)
      (fun node => node) sample_ShardID_isValid 8 unit unit unit unit
      (fun _ _ => None) (fun _ _ => 0) (fun _ _ _ _ x => (0, x))
      (fun _ _ => 0) (fun _ _ => 0) (fun _ _ _ _ x => x) (fun _ x => ([], x))
      (fun _ _ _ => None) (fun _ _ _ => None) (fun _ _ _ _ _ _ _ _ x => x)
      m from
      {| idx_ := 0; hold_store_replies := false; serverInstanceId := 1;
         err := E.OK; log := []; failed_checks := [];
         stats := (∅ : gmap string nat); sent := []; posted := []; world := tt |} in
  let no_recipient := sample_message 0 E.REBUILDING (mkShardID (-1) (-1)) in
  let redirected := sample_message 0 E.REBUILDING (mkShardID 4 0) in
  (fst (receive redirected (ClientAddress Z Z 5)) = ERROR /\
   err (snd (receive redirected (ClientAddress Z Z 5))) = E.PROTO) /\
  (fst (receive no_recipient (ServerAddress Z Z 3)) = ERROR /\
   err (snd (receive no_recipient (ServerAddress Z Z 3))) = E.PROTO) /\
  err (snd (receive redirected (ServerAddress Z Z 3))) = E.OK.
Proof.
  intros receive no_recipient redirected.
  pose proof (fun m from =>
    onReceived_protocol_error Z Z Z Z.eqb (fun rid => rid mod 2 ^ 64)
      (fun rid => rid / 2 ^ 64) (fun node => node) sample_ShardID_isValid 8
      unit unit unit unit
      (fun _ _ => None) (fun _ _ => 0) (fun _ _ _ _ x => (0, x))
      (fun _ _ => 0) (fun _ _ => 0) (fun _ _ _ _ x => x) (fun _ x => ([], x))
      (fun _ _ _ => None) (fun _ _ _ => None) (fun _ _ _ _ _ _ _ _ x => x)
      m from
      {| idx_ := 0; hold_store_replies := false; serverInstanceId := 1;
         err := E.OK; log := []; failed_checks := [];
         stats := (∅ : gmap string nat); sent := []; posted := []; world := tt |})
    as Hreceive.
  split; [|split].
  - destruct (proj1 (Hreceive redirected (ClientAddress Z Z 5))
                (or_introl eq_refl)) as (Hd & He & _).
    split; [exact Hd | exact He].
  - destruct (proj1 (Hreceive no_recipient (ServerAddress Z Z 3))
                (or_intror (conj eq_refl eq_refl))) as (Hd & He & _).
    split; [exact Hd | exact He].
  - exact (proj1 (proj2 (Hreceive redirected (ServerAddress Z Z 3))
                    eq_refl (fun _ => eq_refl))).
Defined.

Lemma createAndSend_status_checks_witness :
  let send := fun (m : STORED_Message Z Z) =>
    createAndSend Z Z Z (fun c => 0 <=? c) sample_ShardID_isValid unit
      (fun _ _ => (GENERAL, 0)) (fun _ _ _ => 0) (fun _ _ _ => E.SHUTDOWN) (fun _ _ => 0)
      (fun _ _ => E.SHUTDOWN)
      (header_ m) 5 (rebuilding_version_ m) (rebuilding_wave_ m)
      (rebuilding_id_ m) (flushToken_ m) (rebuildingRecipient_ m)
      {| idx_ := 0; hold_store_replies := false; serverInstanceId := 1;
         err := E.OK; log := []; failed_checks := [];
         stats := (∅ : gmap string nat); sent := []; posted := []; world := tt |} in
  failed_checks (send (sample_message 0 E.REBUILDING (mkShardID 4 0))) = [] /\
  failed_checks (send (sample_message 0 E.FAILED (mkShardID 4 0))) = ["false"] /\
  failed_checks (send (sample_message 0 E.REBUILDING (mkShardID (-1) (-1))))
  = ["rebuildingRecipient.isValid()"].
Proof.
  intros send.
  pose proof (fun m : STORED_Message Z Z =>
    createAndSend_status_checks Z Z Z (fun c => 0 <=? c) sample_ShardID_isValid
      unit (fun _ _ => (GENERAL, 0)) (fun _ _ _ => 0) (fun _ _ _ => E.SHUTDOWN) (fun _ _ => 0)
      (fun _ _ => E.SHUTDOWN)
      (header_ m) 5 (rebuilding_version_ m) (rebuilding_wave_ m)
      (rebuilding_id_ m) (flushToken_ m) (rebuildingRecipient_ m)
      {| idx_ := 0; hold_store_replies := false; serverInstanceId := 1;
         err := E.OK; log := []; failed_checks := [];
         stats := (∅ : gmap string nat); sent := []; posted := []; world := tt |})
    as Hsend.
  split; [|split].
  - refine (proj1 (proj1 (Hsend (sample_message 0 E.REBUILDING (mkShardID 4 0))) _)).
    split; [discriminate | reflexivity].
  - exact (proj1 (proj2 (Hsend (sample_message 0 E.FAILED (mkShardID 4 0))))
             eq_refl).
  - exact (proj2 (proj2 (Hsend (sample_message 0 E.REBUILDING
                                  (mkShardID (-1) (-1)))))
             eq_refl eq_refl).
Defined.

Lemma handleOneMessage_disposition_witness :
  let worker : Worker Z Z Z unit :=
    {| idx_ := 0; hold_store_replies := false; serverInstanceId := 1;
       err := E.OK; log := []; failed_checks := [];
       stats := (∅ : gmap string nat); sent := []; posted := []; world := tt |} in
  let header := header_ (sample_message 0 E.OK (mkShardID 4 0)) in
  fst (handleOneMessage Z Z Z Z.eqb unit unit
         (fun _ _ => Some tt) (fun _ _ => rid header) (fun _ _ _ _ x => (1, x))
         header (mkShardID 3 1) (mkShardID 4 0) worker) = ERROR /\
  fst (handleOneMessage Z Z Z Z.eqb unit unit
         (fun _ _ => None) (fun _ _ => rid header) (fun _ _ _ _ x => (1, x))
         header (mkShardID 3 1) (mkShardID 4 0) worker) = NORMAL.
Proof.
  intros worker header. split.
  - apply (proj1 (handleOneMessage_disposition Z Z Z Z.eqb unit unit
                    (fun _ _ => Some tt) (fun _ _ => rid header)
                    (fun _ _ _ _ x => (1, x))
                    header (mkShardID 3 1) (mkShardID 4 0) worker)).
    exists tt. split; [reflexivity | discriminate].
  - apply (proj1 (proj2 (handleOneMessage_disposition Z Z Z Z.eqb unit unit
                           (fun _ _ => None) (fun _ _ => rid header)
                           (fun _ _ _ _ x => (1, x))
                           header (mkShardID 3 1) (mkShardID 4 0) worker))).
    reflexivity.
Defined.

Lemma onReceived_error_sources_witness :
  let receive := fun (m : STORED_Message Z Z) (from : Address Z Z) =>
    onReceived Z Z Z Z.eqb (fun rid => rid mod 2 ^ 64) (fun rid => rid / 2 ^ 64)
      (fun node => node) sample_ShardID_isValid 8 unit unit unit unit
      (fun _ _ => None) (fun _ _ => 0) (fun _ _ _ _ x => (0, x))
      (fun _ _ => 0) (fun _ _ => 0) (fun _ _ _ _ x => x) (fun _ x => ([], x))
      (fun _ _ _ => None) (fun _ _ _ => None) (fun _ _ _ _ _ _ _ _ x => x)
      m from
      {| idx_ := 0; hold_store_replies := false; serverInstanceId := 1;
         err := E.OK; log := []; failed_checks := [];
         stats := (∅ : gmap string nat); sent := []; posted := []; world := tt |} in
  let no_recipient := sample_message 0 E.REBUILDING (mkShardID (-1) (-1)) in
  fst (receive no_recipient (ServerAddress Z Z 3)) = ERROR /\
  (isClientAddress Z Z (ServerAddress Z Z 3) = true \/
   (status (header_ no_recipient) = E.REBUILDING /\
    sample_ShardID_isValid (rebuildingRecipient_ no_recipient) = false) \/
   (bit_and (flags (header_ no_recipient)) 8 = false /\
    exists (node_ : Z) (appender : unit) (world' : unit),
      ServerAddress Z Z 3 = ServerAddress Z Z node_ /\
      fst (0, world') <> 0)).
Proof.
  intros receive no_recipient.
  split; [reflexivity|].
  apply (proj1 (onReceived_error_sources Z Z Z Z.eqb (fun rid => rid mod 2 ^ 64)
      (fun rid => rid / 2 ^ 64) (fun node => node) sample_ShardID_isValid 8
      unit unit unit unit
      (fun _ _ => None) (fun _ _ => 0) (fun _ _ _ _ x => (0, x))
      (fun _ _ => 0) (fun _ _ => 0) (fun _ _ _ _ x => x) (fun _ x => ([], x))
      (fun _ _ _ => None) (fun _ _ _ => None) (fun _ _ _ _ _ _ _ _ x => x)
      no_recipient (ServerAddress Z Z 3)
      {| idx_ := 0; hold_store_replies := false; serverInstanceId := 1;
         err := E.OK; log := []; failed_checks := [];
         stats := (∅ : gmap string nat); sent := []; posted := []; world := tt |})).
  reflexivity.
Defined.

Lemma createAndSend_delivery_witness :
  let owner := fun (_ : unit) (c : Z) =>
    if c <? 0 then (MAX, -1) else (GENERAL, c mod 2) in
  let refuses_6 := fun (_ : unit) (_ : STORED_Message Z Z) (c : Z) =>
    if c =? 6 then -1 else 0 in
  let worker : Worker Z Z Z unit :=
    {| idx_ := 0; hold_store_replies := false; serverInstanceId := 1;
       err := E.OK; log := []; failed_checks := [];
       stats := (∅ : gmap string nat); sent := []; posted := []; world := tt |} in
  let m := sample_message 0 E.OK (mkShardID 4 0) in
  let send := fun send_to =>
    createAndSend Z Z Z (fun c => 0 <=? c) sample_ShardID_isValid unit
      owner refuses_6 (fun _ _ _ => E.SHUTDOWN) (fun _ _ => 0)
      (fun _ _ => E.SHUTDOWN)
      (header_ m) send_to (rebuilding_version_ m) (rebuilding_wave_ m)
      (rebuilding_id_ m) (flushToken_ m) (rebuildingRecipient_ m) worker in
  (sent (send (-1)) = [] /\ posted (send (-1)) = [] /\ err (send (-1)) = E.OK) /\
  (length (sent (send 4)) = 1%nat /\ posted (send 4) = [] /\
   err (send 4) = E.OK) /\
  (length (sent (send 6)) = 1%nat /\ err (send 6) = E.SHUTDOWN) /\
  (sent (send 5) = [] /\ length (posted (send 5)) = 1%nat /\
   err (send 5) = E.OK).
Proof.
  intros owner refuses_6 worker m send. subst send. cbv beta.
  pose proof (fun send_to =>
    createAndSend_delivery Z Z Z (fun c => 0 <=? c) sample_ShardID_isValid unit
      owner refuses_6 (fun _ _ _ => E.SHUTDOWN) (fun _ _ => 0)
      (fun _ _ => E.SHUTDOWN)
      (header_ m) send_to (rebuilding_version_ m) (rebuilding_wave_ m)
      (rebuilding_id_ m) (flushToken_ m) (rebuildingRecipient_ m) worker)
    as Hsend.
  split; [|split; [|split]].
  - destruct (Hsend (-1)) as (Hdrop & _).
    apply Hdrop. discriminate.
  - destruct (Hsend 4) as (_ & Hdirect & _).
    destruct (Hdirect eq_refl eq_refl) as (Hsent & Hposted & Herr).
    split; [now rewrite Hsent | split; [exact Hposted | exact Herr]].
  - destruct (Hsend 6) as (_ & Hdirect & _).
    destruct (Hdirect eq_refl eq_refl) as (Hsent & _ & Herr).
    split; [now rewrite Hsent | exact Herr].
  - destruct (Hsend 5) as (_ & _ & Hpost).
    destruct (Hpost eq_refl) as (Hsent & Hposted & Herr); [discriminate|].
    split; [exact Hsent | split; [now rewrite Hposted | exact Herr]].
Defined.

Lemma createAndSend_unsuccessful_total_witness :
  let send := fun (m : STORED_Message Z Z) =>
    createAndSend Z Z Z (fun c => 0 <=? c) sample_ShardID_isValid unit
      (fun _ _ => (GENERAL, 0)) (fun _ _ _ => 0) (fun _ _ _ => E.SHUTDOWN) (fun _ _ => 0)
      (fun _ _ => E.SHUTDOWN)
      (header_ m) 5 (rebuilding_version_ m) (rebuilding_wave_ m)
      (rebuilding_id_ m) (flushToken_ m) (rebuildingRecipient_ m)
      {| idx_ := 0; hold_store_replies := false; serverInstanceId := 1;
         err := E.OK; log := []; failed_checks := [];
         stats := (∅ : gmap string nat); sent := []; posted := []; world := tt |} in
  stats (send (sample_message 0 E.OK (mkShardID 4 0))) = ∅ /\
  stats (send (sample_message 0 E.NOSPC (mkShardID 4 0)))
    !! "node_stored_unsuccessful_total" = Some 1%nat.
Proof.
  intros send.
  pose proof (fun m : STORED_Message Z Z =>
    createAndSend_unsuccessful_total Z Z Z (fun c => 0 <=? c)
      sample_ShardID_isValid unit
      (fun _ _ => (GENERAL, 0)) (fun _ _ _ => 0) (fun _ _ _ => E.SHUTDOWN) (fun _ _ => 0)
      (fun _ _ => E.SHUTDOWN)
      (header_ m) 5 (rebuilding_version_ m) (rebuilding_wave_ m)
      (rebuilding_id_ m) (flushToken_ m) (rebuildingRecipient_ m)
      {| idx_ := 0; hold_store_replies := false; serverInstanceId := 1;
         err := E.OK; log := []; failed_checks := [];
         stats := (∅ : gmap string nat); sent := []; posted := []; world := tt |})
    as Hsend.
  split.
  - exact (proj1 (Hsend (sample_message 0 E.OK (mkShardID 4 0))) eq_refl).
  - refine (proj2 (Hsend (sample_message 0 E.NOSPC (mkShardID 4 0))) _).
    discriminate.
Defined.

Lemma execute_sends_posted_reply_witness :
  let worker : Worker Z Z Z unit :=
    {| idx_ := 0; hold_store_replies := false; serverInstanceId := 1;
       err := E.OK; log := []; failed_checks := [];
       stats := (∅ : gmap string nat); sent := []; posted := []; world := tt |} in
  let executing : Worker Z Z Z unit :=
    {| idx_ := 1; hold_store_replies := false; serverInstanceId := 7;
       err := E.OK; log := []; failed_checks := [];
       stats := (∅ : gmap string nat); sent := []; posted := []; world := tt |} in
  let m := sample_message 0 E.OK (mkShardID 4 0) in
  exists send_stored,
    posted
      (createAndSend Z Z Z (fun c => 0 <=? c) sample_ShardID_isValid unit
         (fun _ _ => (GENERAL, 1)) (fun _ _ _ => 0) (fun _ _ _ => E.SHUTDOWN) (fun _ _ => 0)
      (fun _ _ => E.SHUTDOWN)
         (header_ m) 5 (rebuilding_version_ m) (rebuilding_wave_ m)
         (rebuilding_id_ m) (flushToken_ m) (rebuildingRecipient_ m) worker)
    = [send_stored] /\
    map (fun sent_to => (serverInstanceId_ (fst sent_to), snd sent_to))
      (sent (snd (execute Z Z Z (fun c => 0 <=? c) unit (fun _ _ _ => 0)
                    (fun _ _ _ => E.SHUTDOWN)
                    send_stored executing)))
    = [(7, 5)].
Proof.
  intros worker executing m.
  destruct (execute_sends_posted_reply Z Z Z (fun c => 0 <=? c)
              sample_ShardID_isValid unit
              (fun _ _ => (GENERAL, 1)) (fun _ _ _ => 0) (fun _ _ _ => E.SHUTDOWN) (fun _ _ => 0)
      (fun _ _ => E.SHUTDOWN)
              (header_ m) 5 (rebuilding_version_ m) (rebuilding_wave_ m)
              (rebuilding_id_ m) (flushToken_ m) (rebuildingRecipient_ m)
              worker executing)
    as (send_stored & Hposted & _ & _ & Hsent & _).
  - reflexivity.
  - discriminate.
  - exists send_stored. split; [exact Hposted|]. now rewrite Hsent.
Defined.

Lemma wire_bytes_length_witness :
  length
    (wire_bytes Z Z 8 70 (fun _ => 29%nat) sample_STORED_Header_layout
       (Protocol.uint_layout 8) (Protocol.uint_layout 8) (Protocol.uint_layout 8)
       (Protocol.uint_layout 2) sample_ShardID_layout 80
       (sample_message 9 E.REBUILDING (mkShardID 4 0)))
  = 63%nat.
Proof.
  rewrite (wire_bytes_length Z Z 8 70 (fun _ => 29%nat)
             sample_STORED_Header_layout
             (Protocol.uint_layout 8) (Protocol.uint_layout 8)
             (Protocol.uint_layout 8) (Protocol.uint_layout 2)
             sample_ShardID_layout 80
             (sample_message 9 E.REBUILDING (mkShardID 4 0))).
  - reflexivity.
  - lia.
  - lia.
  - reflexivity.
Defined.

Lemma getDebugInfo_keys_distinct_witness :
  length
    (getDebugInfo Z Z (fun rid => rid mod 2 ^ 64) (fun rid => rid / 2 ^ 64)
       (fun _ => "N3") (fun _ => "N4:S0") (fun _ => "e1n100") (fun _ => "OK")
       1 2 4 8 16 32 (sample_message 3 E.OK (mkShardID 4 0)))
  = 13%nat.
Proof.
  refine (proj2 (getDebugInfo_keys_distinct Z Z (fun rid => rid mod 2 ^ 64)
                   (fun rid => rid / 2 ^ 64)
                   (fun _ => "N3") (fun _ => "N4:S0") (fun _ => "e1n100")
                   (fun _ => "OK") 1 2 4 8 16 32
                   (sample_message 3 E.OK (mkShardID 4 0))) _).
  discriminate.
Defined.

Lemma deserialize_rejects_truncated_witness :
  let u64 := Protocol.uint_layout 8 in
  let u16 := Protocol.uint_layout 2 in
  let headerSize := fun _ : Z => 29%nat in
  let invalid := mkShardID (-1) (-1) in
  let uninit := header_ (sample_message 0 E.OK invalid) in
  let m := sample_message 9 E.REBUILDING (mkShardID 4 0) in
  let bytes :=
    wire_bytes Z Z 8 70 headerSize sample_STORED_Header_layout
      u64 u64 u64 u16 sample_ShardID_layout 80 m in
  deserialize Z Z 8 0 0 0 0 invalid 70 headerSize sample_STORED_Header_layout
    u64 u64 u64 u16 sample_ShardID_layout uninit
    (Protocol.reader 80 (firstn 40 bytes))
  = inl E.BADMSG.
Proof.
  intros u64 u16 headerSize invalid uninit m bytes.
  apply (deserialize_rejects_truncated Z Z 8 0 0 0 0 invalid 70 headerSize
           sample_STORED_Header_layout u64 u64 u64 u16 sample_ShardID_layout
           uninit 80 m (firstn 40 bytes) (skipn 40 bytes)).
  - lia.
  - lia.
  - reflexivity.
  - vm_compute. reflexivity.
  - apply firstn_skipn.
  - vm_compute. discriminate.
Defined.

End STORED.
